(** * EDIFACT PRICAT generator: a shallow embedding of [update2/pricat.py]

    The development embeds the validate-then-encode pipeline of the PRICAT
    generator ([escape_edifact], [validate_price], [validate_data],
    [generate_edi_segments], [generate_pricat]) together with the small part
    of the Python runtime it relies on (strings, [decimal.Decimal],
    exceptions, the file system and the clock), and proves properties of it.

    Conventions.
    - Python exceptions are values of [exn]; a computation that may raise
      has type [result A].
    - Python [str] is [string]; the model fixes the characters to the 256
      codes of [ascii], so that [str.upper], [str.strip] and the digit class
      of regular expressions are the ASCII ones.
    - Input records are dictionaries with string keys ([gmap string _]).
      A party or an item is a dictionary of scalars; a top-level field is a
      scalar or a list of such dictionaries.  Python [float] values are not
      part of the model.
    - Logging has no influence on returned values or on the output file and
      is left out. *)

From Stdlib Require Import ZArith NArith Ascii String DecimalString DecimalN.
From stdpp Require Import base option list gmap strings.


Local Open Scope Z_scope.

(* ===================================================================== *)
(** * Part I: definitions *)
(* ===================================================================== *)

(** ** Exceptions and results *)

Inductive exn : Type :=
| PRICATValidationError (msg : string)
| KeyError (key : string)
| TypeError
| AttributeError
| InvalidOperation
| OSError.

Inductive result (A : Type) : Type :=
| Return (a : A)
| Raise (e : exn).
Arguments Return {A} a.
Arguments Raise {A} e.

#[global] Instance result_ret : MRet result := @Return.
#[global] Instance result_bind : MBind result := λ A B f m,
  match m with
  | Return a => f a
  | Raise e => Raise e
  end.

(** [try: body except handler]: [handler e = None] means that no [except]
    clause matches [e], which then propagates. *)
Definition try_except {A} (body : result A) (handler : exn → option (result A))
  : result A :=
  match body with
  | Return a => Return a
  | Raise e => match handler e with Some r => r | None => Raise e end
  end.

Definition is_Return {A} (r : result A) : bool :=
  match r with Return _ => true | Raise _ => false end.

(** ** Strings *)

Definition char_in_range (lo hi : N) (c : ascii) : bool :=
  let n := N_of_ascii c in (lo <=? n)%N && (n <=? hi)%N.

Definition is_digit : ascii → bool := char_in_range 48 57.
Definition is_upper : ascii → bool := char_in_range 65 90.
Definition is_lower : ascii → bool := char_in_range 97 122.

(** The characters removed by [str.strip()] among the first 128 codes. *)
Definition is_space (c : ascii) : bool :=
  char_in_range 9 13 c || char_in_range 28 32 c.

Definition char_upper (c : ascii) : ascii :=
  if is_lower c then ascii_of_N (N_of_ascii c - 32) else c.
Definition char_lower (c : ascii) : ascii :=
  if is_upper c then ascii_of_N (N_of_ascii c + 32) else c.

Fixpoint str_map (f : ascii → ascii) (s : string) : string :=
  match s with
  | EmptyString => EmptyString
  | String c r => String (f c) (str_map f r)
  end.

(** [s.upper()] and [s.lower()] *)
Definition upper : string → string := str_map char_upper.
Definition lower : string → string := str_map char_lower.

Fixpoint str_forallb (p : ascii → bool) (s : string) : bool :=
  match s with
  | EmptyString => true
  | String c r => p c && str_forallb p r
  end.

(** [s[:n]] and [s[n:]] for [0 <= n] *)
Fixpoint str_take (n : nat) (s : string) : string :=
  match n, s with
  | S k, String c r => String c (str_take k r)
  | _, _ => EmptyString
  end.
Fixpoint str_drop (n : nat) (s : string) : string :=
  match n, s with
  | S k, String _ r => str_drop k r
  | _, _ => s
  end.

Fixpoint lstrip (s : string) : string :=
  match s with
  | String c r => if is_space c then lstrip r else s
  | EmptyString => EmptyString
  end.
Fixpoint rstrip (s : string) : string :=
  match s with
  | EmptyString => EmptyString
  | String c r =>
      match rstrip r with
      | EmptyString => if is_space c then EmptyString else String c EmptyString
      | r' => String c r'
      end
  end.
(** [s.strip()] *)
Definition strip (s : string) : string := rstrip (lstrip s).

(** [s.startswith(p)] *)
Fixpoint startswith (p s : string) : bool :=
  match p, s with
  | EmptyString, _ => true
  | String a p', String b s' => bool_decide (a = b) && startswith p' s'
  | String _ _, EmptyString => false
  end.

(** [s.replace(old, new)] for a non-empty [old]: the occurrences of [old]
    are found from left to right without overlap.  [skip] counts the
    characters of a matched occurrence still to be passed over. *)
Fixpoint replace_from (old new : string) (skip : nat) (s : string) : string :=
  match s with
  | EmptyString => EmptyString
  | String c r =>
      match skip with
      | S k => replace_from old new k r
      | O =>
          if startswith old s
          then new +:+ replace_from old new (String.length old - 1) r
          else String c (replace_from old new 0 r)
      end
  end.
Definition replace (old new s : string) : string := replace_from old new 0 s.

(** [sep.join(l)] *)
Fixpoint join (sep : string) (l : list string) : string :=
  match l with
  | [] => ""
  | [x] => x
  | x :: r => x +:+ sep +:+ join sep r
  end.

(** [sub in s] for strings *)
Fixpoint contains (sub s : string) : bool :=
  startswith sub s ||
  match s with
  | EmptyString => false
  | String _ r => contains sub r
  end.

(** ** Integers as text *)

(** [str(n)] for a natural number: its decimal digits, ["0"] for zero. *)
Definition digits (n : N) : string := NilEmpty.string_of_uint (N.to_uint n).

(** [int(s)] for a string of decimal digits (leading zeros allowed). *)
Definition int_of_digits (s : string) : N :=
  match NilEmpty.uint_of_string s with
  | Some u => N.of_uint u
  | None => 0%N
  end.

(** [str(z)] for a Python [int] *)
Definition str_of_int (z : Z) : string :=
  if z <? 0 then "-" +:+ digits (Z.abs_N z) else digits (Z.abs_N z).

(** ['0' * n] *)
Fixpoint zeros (n : nat) : string :=
  match n with
  | O => ""
  | S k => String "0" (zeros k)
  end.

(** The longest prefix of digits, and what follows it. *)
Fixpoint span_digits (s : string) : string * string :=
  match s with
  | String c r =>
      if is_digit c
      then let '(d, r') := span_digits r in (String c d, r')
      else ("", s)
  | EmptyString => ("", "")
  end.

(** ** [decimal.Decimal]

    A decimal is a sign, a coefficient and an exponent, or one of the
    special values.  The arithmetic context is Python's default one:
    precision 28, [Emax = 999999], rounding [ROUND_HALF_EVEN], with
    [InvalidOperation] trapped (raised as an exception). *)

Inductive Decimal : Type :=
| Finite (sign : bool) (coeff : N) (exp : Z)
| Infinity (sign : bool)
| NaN (sign : bool) (signaling : bool) (payload : N).

#[global] Instance Decimal_eq_dec : EqDecision Decimal.
Proof. solve_decision. Defined.

Inductive rounding : Type := ROUND_HALF_UP | ROUND_HALF_EVEN.

Definition prec : Z := 28.
Definition Emax : Z := 999999.

(** [len(d._int)]: the number of digits of the coefficient *)
Definition ndigits (c : N) : Z := Z.of_nat (String.length (digits c)).

(** [d.adjusted()] *)
Definition adjusted (c : N) (e : Z) : Z := e + ndigits c - 1.

(** An optional sign in front of a numeral. *)
Definition parse_sign (s : string) : bool * string :=
  match s with
  | String "-" r => (true, r)
  | String "+" r => (false, r)
  | _ => (false, s)
  end.

(** The optional exponent part [(E[-+]?\d+)?] followed by the end of the
    text. *)
Definition parse_exponent (s : string) : option Z :=
  match s with
  | EmptyString => Some 0
  | String c r =>
      if bool_decide (char_lower c = "e"%char) then
        let '(neg, r1) := parse_sign r in
        let '(ds, r2) := span_digits r1 in
        if bool_decide (ds ≠ "") && bool_decide (r2 = "") then
          Some (if neg then - Z.of_N (int_of_digits ds) else Z.of_N (int_of_digits ds))
        else None
      else None
  end.

(** A number with at least one digit: integer part, optional fractional
    part, optional exponent. *)
Definition parse_number (sign : bool) (s : string) : option Decimal :=
  let '(intpart, r1) := span_digits s in
  let '(fracpart, r2) :=
    match r1 with
    | String "." r => span_digits r
    | _ => ("", r1)
    end in
  if bool_decide (intpart +:+ fracpart = "") then None
  else
    e ← parse_exponent r2;
    Some (Finite sign (int_of_digits (intpart +:+ fracpart))
                 (e - Z.of_nat (String.length fracpart))).

(** [Inf], [Infinity], [NaN<digits>] and [sNaN<digits>], in any letter
    case. *)
Definition parse_special (sign : bool) (s : string) : option Decimal :=
  let l := lower s in
  if bool_decide (l = "inf") || bool_decide (l = "infinity") then Some (Infinity sign)
  else if startswith "nan" l && str_forallb is_digit (str_drop 3 l)
  then Some (NaN sign false (int_of_digits (str_drop 3 l)))
  else if startswith "snan" l && str_forallb is_digit (str_drop 4 l)
  then Some (NaN sign true (int_of_digits (str_drop 4 l)))
  else None.

(** [Decimal(value)] for a string [value]: surrounding white space and
    underscores are removed, then the text must be a numeric string. *)
Definition Decimal_new (value : string) : result Decimal :=
  let '(sign, body) := parse_sign (replace "_" "" (strip value)) in
  match parse_number sign body with
  | Some d => Return d
  | None =>
      match parse_special sign body with
      | Some d => Return d
      | None => Raise InvalidOperation
      end
  end.

(** The coefficient of [c * 10^e] once the exponent is set to [target]. *)
Definition rescale (c : N) (e target : Z) (r : rounding) : N :=
  if target <=? e then (c * 10 ^ Z.to_N (e - target))%N
  else
    let p := (10 ^ Z.to_N (target - e))%N in
    let q := (c / p)%N in
    let rem := (c mod p)%N in
    match r with
    | ROUND_HALF_UP => if (p <=? 2 * rem)%N then (q + 1)%N else q
    | ROUND_HALF_EVEN =>
        if (p <? 2 * rem)%N then (q + 1)%N
        else if (2 * rem =? p)%N && N.odd q then (q + 1)%N
        else q
    end.

(** [d.quantize(Decimal(1).scaleb(target), rounding=r)] in the default
    context; [target] is the exponent of the second operand, which is
    finite. *)
Definition quantize (d : Decimal) (target : Z) (r : rounding) : result Decimal :=
  match d with
  | NaN s false p => Return (NaN s false p)
  | NaN _ true _ => Raise InvalidOperation
  | Infinity _ => Raise InvalidOperation
  | Finite s c e =>
      if (c =? 0)%N then Return (Finite s 0 target)
      else if Emax <? adjusted c e then Raise InvalidOperation
      else if prec <? adjusted c e - target + 1 then Raise InvalidOperation
      else
        let c' := rescale c e target r in
        if Emax <? adjusted c' target then Raise InvalidOperation
        else if prec <? ndigits c' then Raise InvalidOperation
        else Return (Finite s c' target)
  end.

(** [d < 0] *)
Definition Decimal_lt_zero (d : Decimal) : result bool :=
  match d with
  | Finite s c _ => Return (s && negb (c =? 0)%N)
  | Infinity s => Return s
  | NaN _ _ _ => Raise InvalidOperation
  end.

(** Rounding of a finite result to the precision of the context. *)
Definition fix_prec (s : bool) (c : N) (e : Z) : Decimal :=
  if ndigits c <=? prec then Finite s c e
  else
    let e' := e + ndigits c - prec in
    let c' := rescale c e e' ROUND_HALF_EVEN in
    if ndigits c' <=? prec then Finite s c' e'
    else Finite s (c' / 10)%N (e' + 1).

(** [a + b] for finite operands: the exact sum at the smaller exponent,
    rounded to the precision of the context. *)
Definition Decimal_add (a b : Decimal) : Decimal :=
  match a, b with
  | Finite s1 c1 e1, Finite s2 c2 e2 =>
      let e := Z.min e1 e2 in
      let v1 := Z.of_N c1 * 10 ^ (e1 - e) in
      let v2 := Z.of_N c2 * 10 ^ (e2 - e) in
      let v := (if s1 then - v1 else v1) + (if s2 then - v2 else v2) in
      if v =? 0 then Finite (s1 && s2) 0 e
      else fix_prec (v <? 0) (Z.abs_N v) e
  | NaN s g p, _ => NaN s g p
  | _, NaN s g p => NaN s g p
  | Infinity s, _ => Infinity s
  | _, Infinity s => Infinity s
  end.

Definition sign_str (s : bool) : string := if s then "-" else "".

(** [str(d)] *)
Definition Decimal_str (d : Decimal) : string :=
  match d with
  | Infinity s => sign_str s +:+ "Infinity"
  | NaN s g p =>
      sign_str s +:+ (if g then "sNaN" else "NaN")
        +:+ (if (p =? 0)%N then "" else digits p)
  | Finite s c e =>
      let _int := digits c in
      let len := Z.of_nat (String.length _int) in
      let leftdigits := e + len in
      let dotplace := if (e <=? 0) && (-6 <? leftdigits) then leftdigits else 1 in
      let intpart :=
        if dotplace <=? 0 then "0"
        else if len <=? dotplace then _int +:+ zeros (Z.to_nat (dotplace - len))
        else str_take (Z.to_nat dotplace) _int in
      let fracpart :=
        if dotplace <=? 0 then "." +:+ zeros (Z.to_nat (- dotplace)) +:+ _int
        else if len <=? dotplace then ""
        else "." +:+ str_drop (Z.to_nat dotplace) _int in
      let exp :=
        if leftdigits =? dotplace then ""
        else "E" +:+ (if leftdigits - dotplace <? 0 then "-" else "+")
                 +:+ digits (Z.abs_N (leftdigits - dotplace)) in
      sign_str s +:+ intpart +:+ fracpart +:+ exp
  end.

(** [format(d, ".2f")]: the value is brought to two fraction digits with
    the rounding of the context and written in fixed-point notation. *)
Definition Decimal_format_2f (d : Decimal) : string :=
  match d with
  | Finite s c e =>
      let c' := rescale c e (-2) ROUND_HALF_EVEN in
      let ds := digits c' in
      let n := String.length ds in
      sign_str s +:+
        (if (n <=? 2)%nat then "0." +:+ zeros (2 - n) +:+ ds
         else str_take (n - 2) ds +:+ "." +:+ str_drop (n - 2) ds)
  | _ => Decimal_str d
  end.

(** ** Input records *)

(** The values found in the fields of a party or of an item. *)
Inductive scalar : Type :=
| SNone
| SBool (b : bool)
| SInt (z : Z)
| SStr (s : string)
| SDec (d : Decimal).

#[global] Instance scalar_eq_dec : EqDecision scalar.
Proof. solve_decision. Defined.

(** A party or an item: a dictionary with string keys. *)
Abbreviation obj := (gmap string scalar).

(** The values found in the top-level fields of a record. *)
Inductive value : Type :=
| Scalar (x : scalar)
| List (l : list obj).

(** The record handed to the pipeline: [Dict[str, Any]]. *)
Abbreviation record := (gmap string value).

(** [str(x)], which is also what an f-string writes for [{x}] *)
Definition py_str (x : scalar) : string :=
  match x with
  | SNone => "None"
  | SBool true => "True"
  | SBool false => "False"
  | SInt z => str_of_int z
  | SStr s => s
  | SDec d => Decimal_str d
  end.

(** [str(e)] for the exceptions an item can raise; the keys looked up by
    the program are plain identifiers, so [repr(key)] is the key between
    single quotes. *)
Definition exn_str (e : exn) : string :=
  match e with
  | PRICATValidationError msg => msg
  | KeyError key => "'" +:+ key +:+ "'"
  | TypeError => "TypeError"
  | AttributeError => "AttributeError"
  | InvalidOperation => "InvalidOperation"
  | OSError => "OSError"
  end.

(** [d[key]] *)
Definition getitem {V} (d : gmap string V) (key : string) : result V :=
  match d !! key with
  | Some v => Return v
  | None => Raise (KeyError key)
  end.

(** [d.get(key, default)] *)
Definition get {V} (d : gmap string V) (key : string) (dflt : V) : V :=
  default dflt (d !! key).

(** [key in d] *)
Definition has_key {V} (d : gmap string V) (key : string) : bool :=
  bool_decide (is_Some (d !! key)).

(** ** The environment

    The file system maps the paths that exist to their contents.  The clock
    is read twice, for the date of the [DTM] segment and for the suffix of
    a derived file name.  Whether [os.makedirs] and [open] succeed is
    decided by the environment.  The text that [repr] gives for a list of
    dictionaries and for a set depends on an iteration order that finite
    maps and sets do not record, so it is supplied by the environment as
    well. *)
Record World : Type := {
  files : gmap string string;
  today : string;
  timestamp : string;
  makedirs_ok : string → bool;
  open_ok : string → bool;
  repr_list : list obj → string;
  repr_set : gset string → string
}.

Definition write_file (path content : string) (w : World) : World :=
  {| files := <[path := content]> (files w);
     today := today w; timestamp := timestamp w;
     makedirs_ok := makedirs_ok w; open_ok := open_ok w;
     repr_list := repr_list w; repr_set := repr_set w |}.

(** What an f-string writes for [{v}]. *)
Definition format_value (w : World) (v : value) : string :=
  match v with
  | Scalar x => py_str x
  | List l => repr_list w l
  end.

(** [v.upper()]: only strings have the method. *)
Definition value_upper (v : value) : result string :=
  match v with
  | Scalar (SStr s) => Return (upper s)
  | _ => Raise AttributeError
  end.

(** [x in s] for a set of strings [s]: the element is hashed first, which
    fails for a list and for a signaling NaN. *)
Definition scalar_in (x : scalar) (s : gset string) : result bool :=
  match x with
  | SStr t => Return (bool_decide (t ∈ s))
  | SDec (NaN _ true _) => Raise TypeError
  | _ => Return false
  end.
Definition value_in (v : value) (s : gset string) : result bool :=
  match v with
  | Scalar x => scalar_in x s
  | List _ => Raise TypeError
  end.

(** The elements a [for] loop takes from a top-level field, as far as the
    loops of this program are concerned: a list gives its elements; the
    empty string gives none; a non-empty string gives one-character
    strings, on which the first subscript of the loop body raises
    [TypeError]; the other scalars are not iterable. *)
Definition iter_dicts (v : value) : result (list obj) :=
  match v with
  | List l => Return l
  | Scalar (SStr "") => Return []
  | Scalar _ => Raise TypeError
  end.

(** [for x in l: f(x)] in the [result] monad *)
Fixpoint for_each {A} (f : A → result unit) (l : list A) : result unit :=
  match l with
  | [] => Return ()
  | x :: r => f x ;; for_each f r
  end.

(** ** The program: constants *)

Definition UNA_SEGMENT : string := "UNA:+.? '".
Definition SEG_SEPARATOR : string := "'".
Definition ESCAPE_CHAR : string := "?".

Definition VALID_CURRENCIES : gset string := {[ "EUR"; "USD"; "GBP"; "JPY" ]}.
Definition VALID_QUALIFIERS : gset string := {[ "BY"; "SU"; "SE" ]}.

(** ** [escape_edifact] *)

Definition escape_edifact (text : string) : string := replace "'" "?+" text.

(** [escape_edifact(x)] for an arbitrary field value: only a string has
    [replace]. *)
Definition escape_edifact_scalar (x : scalar) : result string :=
  match x with
  | SStr s => Return (escape_edifact s)
  | _ => Raise AttributeError
  end.

(** ** [validate_price] *)

Definition validate_price (price : scalar) : result Decimal :=
  try_except
    (d ← Decimal_new (py_str price);
     price_decimal ← quantize d (-2) ROUND_HALF_UP;
     negative ← Decimal_lt_zero price_decimal;
     if negative : bool then Raise (PRICATValidationError "Price cannot be negative")
     else Return price_decimal)
    (λ e, match e with
          | InvalidOperation | TypeError =>
              Some (Raise (PRICATValidationError ("Invalid price value: " +:+ py_str price)))
          | _ => None
          end).

(** ** [validate_data] *)

Inductive pytype : Type := Tstr | Tlist.

#[global] Instance pytype_eq_dec : EqDecision pytype.
Proof. solve_decision. Defined.

Definition type_name (t : pytype) : string :=
  match t with Tstr => "str" | Tlist => "list" end.

Definition isinstance (v : value) (t : pytype) : bool :=
  match t, v with
  | Tstr, Scalar (SStr _) => true
  | Tlist, List _ => true
  | _, _ => false
  end.

(** [isinstance(x, str)] and [isinstance(x, (int, float))] on scalars;
    [bool] is a subclass of [int]. *)
Definition is_str (x : scalar) : bool :=
  match x with SStr _ => true | _ => false end.
Definition is_number (x : scalar) : bool :=
  match x with SInt _ | SBool _ => true | _ => false end.

(** [not v] for the two kinds of values the program tests. *)
Definition is_empty (v : value) : bool :=
  match v with
  | List [] => true
  | Scalar (SStr "") => true
  | _ => false
  end.

(** [x <= 0] for a number *)
Definition le_zero (x : scalar) : bool :=
  match x with
  | SInt z => z <=? 0
  | SBool b => negb b
  | _ => false
  end.

Definition required_fields : list (string * pytype) :=
  [ ("message_ref", Tstr); ("doc_code", Tstr); ("doc_number", Tstr);
    ("parties", Tlist); ("items", Tlist); ("edifact_version", Tstr) ].

Definition check_required (data : record) (f : string * pytype) : result unit :=
  let '(field, field_type) := f in
  if negb (has_key data field) then
    Raise (PRICATValidationError ("Missing required field: " +:+ field))
  else
    v ← getitem data field;
    if negb (isinstance v field_type) then
      Raise (PRICATValidationError
               ("Field " +:+ field +:+ " must be " +:+ type_name field_type))
    else if bool_decide (field_type = Tlist) && is_empty v then
      Raise (PRICATValidationError ("Field " +:+ field +:+ " cannot be empty"))
    else Return ().

(** [re.match(r"^[A-Z]:\d{2}[A-Z]:UN$", s)]: [$] also matches just before
    a final line break. *)
Definition version_re_match (s : string) : bool :=
  match s with
  | String a (String ":" (String y1 (String y2 (String b
      (String ":" (String "U" (String "N" r))))))) =>
      is_upper a && is_digit y1 && is_digit y2 && is_upper b &&
      (bool_decide (r = "") || bool_decide (r = String "010" ""))
  | _ => false
  end.

Definition check_party (valid_qualifiers : gset string) (party : obj) : result unit :=
  if negb (forallb (has_key party) ["qualifier"; "id"]) then
    Raise (PRICATValidationError "Each party must have 'qualifier' and 'id'")
  else
    qualifier ← getitem party "qualifier";
    known ← scalar_in qualifier valid_qualifiers;
    if negb known then
      Raise (PRICATValidationError ("Invalid party qualifier: " +:+ py_str qualifier))
    else
      id ← getitem party "id";
      if negb (is_str id) || is_empty (Scalar id) then
        Raise (PRICATValidationError "Party ID must be a non-empty string")
      else Return ().

Definition check_item (item : obj) : result unit :=
  if negb (forallb (has_key item) ["product_code"; "description"; "price"]) then
    Raise (PRICATValidationError "Each item requires product_code, description, and price")
  else
    product_code ← getitem item "product_code";
    if negb (is_str product_code) || is_empty (Scalar product_code) then
      Raise (PRICATValidationError "Product code must be a non-empty string")
    else
      description ← getitem item "description";
      if negb (is_str description) || is_empty (Scalar description) then
        Raise (PRICATValidationError "Description must be a non-empty string")
      else
        price ← getitem item "price";
        validate_price price ;;
        if has_key item "quantity" then
          quantity ← getitem item "quantity";
          if negb (is_number quantity) || le_zero quantity then
            Raise (PRICATValidationError "Quantity must be a positive number")
          else Return ()
        else Return ().

(** [w] supplies the text of the set of currencies for the message about
    an unknown currency. *)
Definition validate_data (w : World) (data : record)
    (valid_qualifiers valid_currencies : gset string) : result unit :=
  for_each (check_required data) required_fields ;;
  version ← getitem data "edifact_version";
  edifact_version ← value_upper version;
  if negb (version_re_match edifact_version) then
    Raise (PRICATValidationError "Invalid EDIFACT version format")
  else
    let currency := get data "currency" (Scalar (SStr "EUR")) in
    known ← value_in currency valid_currencies;
    if negb known then
      Raise (PRICATValidationError
               ("Invalid currency code: " +:+ format_value w currency
                  +:+ ". Must be one of " +:+ repr_set w valid_currencies))
    else
      parties ← getitem data "parties" ≫= iter_dicts;
      for_each (check_party valid_qualifiers) parties ;;
      items ← getitem data "items" ≫= iter_dicts;
      for_each check_item items.

(** ** [generate_edi_segments]

    The function builds its result in three local variables that the loop
    over the items updates in place.  An exception raised in the middle of
    a loop body leaves the updates made so far in place, so the encoder is
    written in a monad that threads the variables and keeps them when a
    step raises. *)

Record locals : Type := {
  segments : list string;
  total_amount : Decimal;
  item_count : nat
}.

Definition enc (A : Type) : Type := locals → result A * locals.

#[global] Instance enc_ret : MRet enc := λ A a st, (Return a, st).
#[global] Instance enc_bind : MBind enc := λ A B f m st,
  match m st with
  | (Return a, st') => f a st'
  | (Raise e, st') => (Raise e, st')
  end.

(** An expression that reads no local variable. *)
Definition eval {A} (r : result A) : enc A := λ st, (r, st).

(** [segments.extend(l)]; [segments.append(x)] is [extend [x]]. *)
Definition extend (l : list string) : enc unit := λ st,
  (Return (),
   {| segments := segments st ++ l;
      total_amount := total_amount st; item_count := item_count st |}).

(** [total_amount += price] *)
Definition add_to_total (price : Decimal) : enc unit := λ st,
  (Return (),
   {| segments := segments st;
      total_amount := Decimal_add (total_amount st) price;
      item_count := item_count st |}).

(** [item_count += 1] *)
Definition incr_item_count : enc unit := λ st,
  (Return (),
   {| segments := segments st;
      total_amount := total_amount st; item_count := S (item_count st) |}).

(** [try: body except (KeyError, PRICATValidationError) as e: handler(e)];
    the handler runs on the variables as the body left them. *)
Definition try_item (body : enc unit) (handler : exn → enc unit) : enc unit := λ st,
  match body st with
  | (Raise (KeyError k), st') => handler (KeyError k) st'
  | (Raise (PRICATValidationError m), st') => handler (PRICATValidationError m) st'
  | other => other
  end.

(** [for x in l: f(x)] in the [enc] monad; [break]-free, an exception
    ends the loop. *)
Fixpoint enc_for {A} (f : A → enc unit) (l : list A) : enc unit :=
  match l with
  | [] => mret ()
  | x :: r => f x ;; enc_for f r
  end.

(** [enumerate(l, start)] *)
Fixpoint enumerate {A} (start : nat) (l : list A) : list (nat * A) :=
  match l with
  | [] => []
  | x :: r => (start, x) :: enumerate (S start) r
  end.

Definition str_of_nat (n : nat) : string := str_of_int (Z.of_nat n).

(** The six segments the list is created with. *)
Definition header_segments (w : World) (data : record) : result (list string) :=
  message_ref ← getitem data "message_ref";
  version ← getitem data "edifact_version" ≫= value_upper;
  doc_code ← getitem data "doc_code";
  doc_number ← getitem data "doc_number";
  Return
    [ UNA_SEGMENT;
      "UNH+" +:+ format_value w message_ref +:+ "+PRICAT:" +:+ version +:+ "'";
      "BGM+" +:+ format_value w doc_code +:+ "+" +:+ format_value w doc_number +:+ "+9'";
      "DTM+137:" +:+ today w +:+ ":102'";
      "CUX+2:" +:+ format_value w (get data "currency" (Scalar (SStr "EUR"))) +:+ ":9'";
      "RFF+ON:" +:+ format_value w doc_number +:+ "'" ].

(** The body of the loop over the parties. *)
Definition party_step (party : obj) : enc unit :=
  qualifier ← eval (getitem party "qualifier");
  id ← eval (getitem party "id");
  extend [ "NAD+" +:+ py_str qualifier +:+ "+" +:+ py_str id +:+ "::91'" ].

(** The [try] block of the loop over the items. *)
Definition item_body (index : nat) (item : obj) : enc unit :=
  price ← eval (getitem item "price" ≫= validate_price);
  description ← eval (getitem item "description" ≫= escape_edifact_scalar);
  product_code ← eval (getitem item "product_code");
  extend [ "LIN+" +:+ str_of_nat index +:+ "++" +:+ py_str product_code +:+ ":EN'";
           "IMD+F++:::" +:+ description +:+ "'";
           "PRI+AAA:" +:+ Decimal_format_2f price +:+ ":UP'";
           "PRI+AAB:" +:+ Decimal_format_2f price +:+ ":UP'" ] ;;
  (if has_key item "quantity" then
     let unit := get item "unit" (SStr "PCE") in
     quantity ← eval (getitem item "quantity");
     extend [ "QTY+47:" +:+ py_str quantity +:+ ":" +:+ py_str unit +:+ "'" ]
   else mret ()) ;;
  add_to_total price ;;
  incr_item_count.

(** The [except] block of the loop over the items; returning normally is
    [continue]. *)
Definition item_handler (strict : bool) (index : nat) (e : exn) : enc unit :=
  if strict then
    eval (Raise (PRICATValidationError
                   ("Invalid item " +:+ str_of_nat index +:+ ": " +:+ exn_str e)))
  else mret ().

Definition item_step (strict : bool) (x : nat * obj) : enc unit :=
  try_item (item_body x.1 x.2) (item_handler strict x.1).

(** The loop over [enumerate(items, start)]. *)
Definition encode_items (strict : bool) (start : nat) (items : list obj) : enc unit :=
  enc_for (item_step strict) (enumerate start items).

Definition generate_edi_segments (data : record) (strict : bool) (w : World)
  : result (list string * Decimal * nat) :=
  header ← header_segments w data;
  let st0 := {| segments := header;
                total_amount := Finite false 0 (-2); item_count := 0 |} in
  let encode : enc unit :=
    parties ← eval (getitem data "parties" ≫= iter_dicts);
    enc_for party_step parties ;;
    items ← eval (getitem data "items" ≫= iter_dicts);
    encode_items strict 1 items in
  match encode st0 with
  | (Return _, st) => Return (segments st, total_amount st, item_count st)
  | (Raise e, _) => Raise e
  end.

(** The default of the parameter [strict]. *)
Definition strict_default : bool := false.

(** ** Paths ([os.path], POSIX flavour) *)

(** The text before and after the last occurrence of [c]. *)
Fixpoint rsplit (c : ascii) (s : string) : option (string * string) :=
  match s with
  | EmptyString => None
  | String a r =>
      match rsplit c r with
      | Some (x, y) => Some (String a x, y)
      | None => if bool_decide (a = c) then Some ("", r) else None
      end
  end.

Definition is_char (c : ascii) : ascii → bool := λ a, bool_decide (a = c).

(** [s.rstrip(c)] for a single character [c] *)
Fixpoint rstrip_char (c : ascii) (s : string) : string :=
  match s with
  | EmptyString => EmptyString
  | String a r =>
      match rstrip_char c r with
      | EmptyString => if bool_decide (a = c) then EmptyString else String a EmptyString
      | r' => String a r'
      end
  end.

(** [os.path.dirname(p)] *)
Definition dirname (p : string) : string :=
  match rsplit "/" p with
  | None => ""
  | Some (x, _) =>
      let head := x +:+ "/" in
      if str_forallb (is_char "/") head then head else rstrip_char "/" head
  end.

(** [os.path.splitext(p)]: the extension starts at the last dot of the
    last component, unless only dots precede it there. *)
Definition splitext (p : string) : string * string :=
  let '(dir, name) :=
    match rsplit "/" p with
    | Some (x, y) => (x +:+ "/", y)
    | None => ("", p)
    end in
  match rsplit "." name with
  | None => (p, "")
  | Some (stem, ext) =>
      if str_forallb (is_char ".") stem then (p, "")
      else (dir +:+ stem, "." +:+ ext)
  end.

(** [os.path.exists(p)] *)
Definition path_exists (w : World) (p : string) : bool :=
  bool_decide (is_Some (files w !! p)).

(** ** [generate_pricat] *)

(** The two segments appended after the encoder has returned.  The list
    display is evaluated before [extend] runs, so [len(segments)] is the
    length of the list the encoder returned. *)
Definition footer_segments (w : World) (data : record)
    (segs : list string) (total : Decimal) : result (list string) :=
  let currency := get data "currency" (Scalar (SStr "EUR")) in
  message_ref ← getitem data "message_ref";
  Return
    [ "MOA+86:" +:+ Decimal_format_2f total +:+ ":" +:+ format_value w currency +:+ "'";
      "UNT+" +:+ str_of_int (Z.of_nat (length segs) - 1) +:+ "+"
             +:+ format_value w message_ref +:+ "'" ].

(** The statements under [if filename:]. *)
Definition save_message (filename : string) (overwrite : bool)
    (edifact_message : string) (w : World) : result World :=
  let filename :=
    if path_exists w filename && negb overwrite then
      let '(base, ext) := splitext filename in
      base +:+ "_" +:+ timestamp w +:+ ext
    else filename in
  let dir := if bool_decide (dirname filename = "") then "." else dirname filename in
  if negb (makedirs_ok w dir) then Raise OSError
  else if negb (open_ok w filename) then Raise OSError
  else Return (write_file filename edifact_message w).

(** [if filename:] holds for a non-empty string. *)
Definition is_set (filename : option string) : bool :=
  match filename with
  | Some (String _ _) => true
  | _ => false
  end.

(** The segments of the message, in the order in which they are joined:
    those of the encoder followed by the footer. *)
Definition message_segments
    (encode : record → bool → World → result (list string * Decimal * nat))
    (data : record) (w : World) : result (list string) :=
  validate_data w data VALID_QUALIFIERS VALID_CURRENCIES ;;
  encoded ← encode data strict_default w;
  let '(segs, total, _) := encoded : list string * Decimal * nat in
  footer ← footer_segments w data segs total;
  Return (segs ++ footer).

(** The body of [generate_pricat], with the segment encoder it calls as a
    parameter.  The result is the returned text and the environment the
    call leaves behind. *)
Definition generate_pricat_with
    (encode : record → bool → World → result (list string * Decimal * nat))
    (data : record) (filename : option string) (overwrite : bool) (w : World)
  : string * World :=
  let body : result (string * World) :=
    all ← message_segments encode data w;
    let edifact_message := join (String "010" "") all in
    if is_set filename then
      w' ← save_message (default "" filename) overwrite edifact_message w;
      Return (edifact_message, w')
    else Return (edifact_message, w) in
  match body with
  | Return r => r
  | Raise (PRICATValidationError _) => ("", w)
  | Raise _ => ("", w)
  end.

Definition generate_pricat : record → option string → bool → World → string * World :=
  generate_pricat_with generate_edi_segments.

(** The default of the parameter [filename]. *)
Definition filename_default : option string := Some "pricat.edi".

(** ** Reference notions used in the statements *)

(** [c'] hundredths is the value [c * 10^e] rounded half up: exact when
    [c * 10^e] is a multiple of a hundredth, otherwise the nearest
    multiple, a tie going to the larger magnitude. *)
Definition half_up_cents (c : N) (e : Z) (c' : N) : Prop :=
  if -2 <=? e then Z.of_N c' = Z.of_N c * 10 ^ (e + 2)
  else
    let p := 10 ^ (-2 - e) in
    2 * Z.of_N c - p < 2 * Z.of_N c' * p ≤ 2 * Z.of_N c + p.


(** The segment of a party that has both of its fields. *)
Definition nad_segment (party : obj) : string :=
  "NAD+" +:+ py_str (get party "qualifier" SNone) +:+ "+"
         +:+ py_str (get party "id" SNone) +:+ "::91'".

(** The segments of an item whose [try] block runs to its end. *)
Definition line_segments (index : nat) (item : obj)
    (product_code : scalar) (description : string) (price : Decimal) : list string :=
  [ "LIN+" +:+ str_of_nat index +:+ "++" +:+ py_str product_code +:+ ":EN'";
    "IMD+F++:::" +:+ escape_edifact description +:+ "'";
    "PRI+AAA:" +:+ Decimal_format_2f price +:+ ":UP'";
    "PRI+AAB:" +:+ Decimal_format_2f price +:+ ":UP'" ] ++
  match item !! "quantity" with
  | Some quantity =>
      [ "QTY+47:" +:+ py_str quantity +:+ ":"
                  +:+ py_str (get item "unit" (SStr "PCE")) +:+ "'" ]
  | None => []
  end.

(** The local variables after an item has been encoded. *)
Definition with_item (st : locals) (segs : list string) (price : Decimal) : locals :=
  {| segments := segments st ++ segs;
     total_amount := Decimal_add (total_amount st) price;
     item_count := S (item_count st) |}.


(** The result of the encoder, read off the local variables when the
    loops have ended. *)
Definition finish (r : result unit * locals) : result (list string * Decimal * nat) :=
  match r with
  | (Return _, st) => Return (segments st, total_amount st, item_count st)
  | (Raise e, _) => Raise e
  end.

(** The local variables when the loop over the items starts. *)
Definition before_items (w : World) (data : record) : result locals :=
  header ← header_segments w data;
  parties ← getitem data "parties" ≫= iter_dicts;
  match enc_for party_step parties
          {| segments := header; total_amount := Finite false 0 (-2); item_count := 0 |} with
  | (Return _, st) => Return st
  | (Raise e, _) => Raise e
  end.

(** [escape_edifact] character by character. *)
Fixpoint str_concat_map (f : ascii → string) (s : string) : string :=
  match s with
  | EmptyString => EmptyString
  | String c r => f c +:+ str_concat_map f r
  end.

(** A text that does not start with a digit. *)
Definition no_leading_digit (s : string) : bool :=
  match s with
  | EmptyString => true
  | String c _ => negb (is_digit c)
  end.

(** The characters of a plain fixed-point numeral. *)
Definition is_numchar (c : ascii) : bool :=
  is_digit c || bool_decide (c = "."%char) || bool_decide (c = "-"%char).

(** The shape of a record that passes validation. *)
Record valid_record (data : record) (quals : gset string)
    (m c n v : string) (ps its : list obj) : Prop := {
  vr_message_ref : data !! "message_ref" = Some (Scalar (SStr m));
  vr_doc_code : data !! "doc_code" = Some (Scalar (SStr c));
  vr_doc_number : data !! "doc_number" = Some (Scalar (SStr n));
  vr_version : data !! "edifact_version" = Some (Scalar (SStr v));
  vr_version_format : version_re_match (upper v) = true;
  vr_parties : data !! "parties" = Some (List ps);
  vr_items : data !! "items" = Some (List its);
  vr_items_nonempty : its ≠ [];
  vr_parties_ok : Forall (λ p, check_party quals p = Return ()) ps;
  vr_items_ok : Forall (λ i, check_item i = Return ()) its
}.

(** ** Sample inputs *)

(** An environment with an empty file system in which every directory
    can be created and every file opened. *)
Definition world0 : World :=
  {| files := ∅; today := "20230515"; timestamp := "20230515_101500";
     makedirs_ok := λ _, true; open_ok := λ _, true;
     repr_list := λ _, "[...]"; repr_set := λ _, "{...}" |}.

(** The record of the [__main__] block of the program. *)
Definition example_data : record :=
  list_to_map
    [ ("message_ref", Scalar (SStr "MSG123"));
      ("doc_code", Scalar (SStr "9"));
      ("doc_number", Scalar (SStr "PRICAT2023"));
      ("currency", Scalar (SStr "EUR"));
      ("edifact_version", Scalar (SStr "D:96A:UN"));
      ("parties",
        List [ list_to_map [ ("qualifier", SStr "BY"); ("id", SStr "BUYER001") ];
               list_to_map [ ("qualifier", SStr "SU"); ("id", SStr "SUPPLIER001") ] ]);
      ("items",
        List [ list_to_map [ ("product_code", SStr "P1001"); ("description", SStr "Product 1");
                             ("price", SStr "125.99"); ("quantity", SInt 10);
                             ("unit", SStr "PCE") ];
               list_to_map [ ("product_code", SStr "P1002"); ("description", SStr "Product 2");
                             ("price", SStr "89.50"); ("quantity", SInt 5) ];
               list_to_map [ ("product_code", SStr "P1003"); ("description", SStr "Product 3");
                             ("price", SStr "45.25") ] ]) ].

(** The same record without its [edifact_version]. *)
Definition example_no_version : record := delete "edifact_version" example_data.

(** The same record without its [items]. *)
Definition example_no_items : record := delete "items" example_data.

Definition item_ok_1 : obj :=
  list_to_map [ ("product_code", SStr "P1"); ("description", SStr "Widget");
                ("price", SStr "10.005") ].
Definition item_ok_2 : obj :=
  list_to_map [ ("product_code", SStr "P2"); ("description", SStr "Gadget");
                ("price", SStr "5.00") ].
(** An item without a price, and one whose price is not a number. *)
Definition item_no_price : obj :=
  list_to_map [ ("product_code", SStr "P9"); ("description", SStr "No price") ].
Definition item_bad_price : obj :=
  list_to_map [ ("product_code", SStr "P8"); ("description", SStr "Bad price");
                ("price", SStr "ten") ].

(** A record whose second item has no price. *)
Definition example_skip : record :=
  <["items" := List ([item_ok_1] ++ item_no_price :: [item_ok_2])]> example_data.

(** An item, a party and a record whose text fields contain the segment
    terminator. *)
Definition item_quotes : obj :=
  list_to_map [ ("product_code", SStr "P'1"); ("description", SStr "5' cable");
                ("price", SStr "1.00"); ("quantity", SStr "2'"); ("unit", SStr "M'") ].
Definition party_quotes : obj :=
  list_to_map [ ("qualifier", SStr "B'Y"); ("id", SStr "O'Brien") ].
Definition example_quotes : record :=
  list_to_map
    [ ("message_ref", Scalar (SStr "M'1"));
      ("doc_code", Scalar (SStr "9'"));
      ("doc_number", Scalar (SStr "D'1"));
      ("edifact_version", Scalar (SStr "D:96A:UN"));
      ("parties", List [ party_quotes ]);
      ("items", List [ item_quotes ]) ].

(** The end-to-end scenario: one party and two items, the first of which
    has a price that rounds up. *)
Definition example_scenario : record :=
  list_to_map
    [ ("message_ref", Scalar (SStr "MSG1"));
      ("doc_code", Scalar (SStr "9"));
      ("doc_number", Scalar (SStr "D1"));
      ("currency", Scalar (SStr "EUR"));
      ("edifact_version", Scalar (SStr "D:96A:UN"));
      ("parties", List [ list_to_map [ ("qualifier", SStr "BY"); ("id", SStr "B1") ] ]);
      ("items", List [ item_ok_1; item_ok_2 ]) ].

(** An encoder that agrees with [generate_edi_segments] in lenient mode
    and fails in strict mode. *)
Definition lenient_only_encoder (data : record) (strict : bool) (w : World)
  : result (list string * Decimal * nat) :=
  if strict then Raise OSError else generate_edi_segments data false w.

(** ** Reference notions for the further properties *)

(** What [validate_price] does with the numeral it is given, in terms of
    the value of the numeral: it is rounded half up to hundredths; a
    result of more than 28 digits or a text that is no finite numeral is
    an invalid value, a negative result is refused, anything else is
    returned. *)
Definition price_outcome (price : scalar) : result Decimal :=
  match Decimal_new (py_str price) with
  | Return (Finite s c e) =>
      let c' := rescale c e (-2) ROUND_HALF_UP in
      if 10 ^ 28 <=? Z.of_N c' then
        Raise (PRICATValidationError ("Invalid price value: " +:+ py_str price))
      else if s && negb (c' =? 0)%N then
        Raise (PRICATValidationError "Price cannot be negative")
      else Return (Finite s c' (-2))
  | _ => Raise (PRICATValidationError ("Invalid price value: " +:+ py_str price))
  end.





(** An item with an acceptable price that lacks its description, or that
    has a description in text form and lacks its product code; [key] is
    the key that is missing. *)
Definition text_field_missing (item : obj) (key : string) : Prop :=
  (∃ p, item !! "price" = Some p ∧ is_Return (validate_price p) = true) ∧
  ((item !! "description" = None ∧ key = "description") ∨
   ((∃ d, item !! "description" = Some (SStr d)) ∧
    item !! "product_code" = None ∧ key = "product_code")).


(** An item with an acceptable price and no product code, and a record
    that has it between two items that are in order. *)
Definition item_no_code : obj :=
  list_to_map [ ("description", SStr "No code"); ("price", SStr "3.50") ].
Definition example_no_code : record :=
  <["items" := List ([item_ok_1] ++ item_no_code :: [item_ok_2])]> example_scenario.

(** An item whose description is a number, and a record with it. *)
Definition item_number_description : obj :=
  list_to_map [ ("product_code", SStr "P7"); ("description", SInt 7);
                ("price", SStr "1.00") ].
Definition example_number_description : record :=
  <["items" := List ([item_ok_1] ++ item_number_description :: [item_ok_2])]>
    example_scenario.


(** The segments and the price that the [try] block adds for an item,
    if it runs to its end. *)
Definition item_encoding (index : nat) (item : obj) : option (list string * Decimal) :=
  match item !! "price" with
  | Some p =>
      match validate_price p with
      | Return d =>
          match item !! "description" with
          | Some (SStr desc) =>
              match item !! "product_code" with
              | Some pc => Some (line_segments index item pc desc d, d)
              | None => None
              end
          | _ => None
          end
      | Raise _ => None
      end
  | None => None
  end.

(** The items that get encoded, numbered as [enumerate] numbers them. *)
Definition encodings (start : nat) (items : list obj) : list (list string * Decimal) :=
  omap (λ x, item_encoding x.1 x.2) (enumerate start items).

(** The coefficient of a decimal, and the sum of the coefficients of a
    list of decimals. *)
Definition cents (d : Decimal) : N :=
  match d with
  | Finite _ c _ => c
  | _ => 0%N
  end.
Definition sum_cents (ds : list Decimal) : N := foldr N.add 0%N (cents <$> ds).




(** [s.endswith(c)] for a single character [c], and the texts that end
    with the segment terminator. *)
Fixpoint endswith_char (c : ascii) (s : string) : bool :=
  match s with
  | EmptyString => false
  | String a EmptyString => bool_decide (a = c)
  | String _ r => endswith_char c r
  end.
Definition terminated (s : string) : bool := endswith_char "'" s.


(* ===================================================================== *)
(** * Part II: properties *)
(* ===================================================================== *)

(** ** The [result] monad *)

Lemma bind_Return {A B} (m : result A) (f : A → result B) (b : B) :
  m ≫= f = Return b ↔ ∃ a, m = Return a ∧ f a = Return b.
Proof.
  destruct m as [a|e]; simpl; split.
  - intros H. exists a. auto.
  - intros (a' & Ha & Hf). congruence.
  - discriminate.
  - intros (a' & Ha & _). discriminate.
Qed.

(** ** Strings and digits *)

Lemma app_nil_l (s : string) : "" +:+ s = s.
Proof. reflexivity. Qed.

Lemma app_cons (c : ascii) (a b : string) : String c a +:+ b = String c (a +:+ b).
Proof. reflexivity. Qed.

Ltac str_simpl := simpl; rewrite ?app_cons, ?app_nil_l; simpl.

Lemma app_empty_r (s : string) : s +:+ "" = s.
Proof. induction s as [|c s IH]; str_simpl; [reflexivity | by rewrite IH]. Qed.

Lemma length_app_str (a b : string) :
  String.length (a +:+ b) = (String.length a + String.length b)%nat.
Proof. induction a as [|x a IH]; str_simpl; [reflexivity | by rewrite IH]. Qed.

Lemma str_take_drop (n : nat) (s : string) : str_take n s +:+ str_drop n s = s.
Proof.
  revert s. induction n as [|n IH]; intros [|c s]; str_simpl; try reflexivity.
  by rewrite IH.
Qed.

Lemma length_str_drop (n : nat) (s : string) :
  String.length (str_drop n s) = (String.length s - n)%nat.
Proof.
  revert s. induction n as [|n IH]; intros [|c s]; simpl; try reflexivity.
  apply IH.
Qed.

Lemma length_str_take (n : nat) (s : string) :
  (n ≤ String.length s)%nat → String.length (str_take n s) = n.
Proof.
  revert s. induction n as [|n IH]; intros [|c s]; simpl; intros H; try lia.
  rewrite IH; lia.
Qed.

Lemma length_zeros (n : nat) : String.length (zeros n) = n.
Proof. induction n; simpl; congruence. Qed.

Lemma forallb_app_str (p : ascii → bool) (a b : string) :
  str_forallb p (a +:+ b) = str_forallb p a && str_forallb p b.
Proof.
  induction a as [|x a IH]; str_simpl; [reflexivity|].
  rewrite IH. by rewrite andb_assoc.
Qed.

Lemma forallb_impl_str (p q : ascii → bool) (s : string) :
  (∀ c, p c = true → q c = true) → str_forallb p s = true → str_forallb q s = true.
Proof.
  intros Hpq. induction s as [|c s IH]; simpl; [done|].
  intros [Hc Hs]%andb_prop. rewrite (Hpq _ Hc), (IH Hs). reflexivity.
Qed.

Lemma forallb_take_str (p : ascii → bool) (n : nat) (s : string) :
  str_forallb p s = true → str_forallb p (str_take n s) = true.
Proof.
  revert s. induction n as [|n IH]; intros [|c s]; simpl; try done.
  intros [Hc Hs]%andb_prop. by rewrite Hc, IH.
Qed.

Lemma forallb_drop_str (p : ascii → bool) (n : nat) (s : string) :
  str_forallb p s = true → str_forallb p (str_drop n s) = true.
Proof.
  revert s. induction n as [|n IH]; intros [|c s]; simpl; try done.
  intros [Hc Hs]%andb_prop. by apply IH.
Qed.

Lemma forallb_zeros : ∀ n, str_forallb is_digit (zeros n) = true.
Proof. induction n; simpl; [reflexivity | assumption]. Qed.

Lemma uint_string_digits (u : Decimal.uint) :
  str_forallb is_digit (NilEmpty.string_of_uint u) = true.
Proof. induction u; simpl; auto. Qed.

Lemma digits_all_digit (n : N) : str_forallb is_digit (digits n) = true.
Proof. apply uint_string_digits. Qed.

Lemma digits_nonempty (n : N) : digits n ≠ "".
Proof.
  unfold digits. destruct n as [|p]; simpl; [discriminate|].
  pose proof (DecimalPos.Unsigned.to_uint_nonnil p) as H.
  destruct (Pos.to_uint p); simpl; try discriminate. congruence.
Qed.

Lemma int_of_digits_digits (n : N) : int_of_digits (digits n) = n.
Proof.
  unfold int_of_digits, digits. rewrite NilEmpty.usu.
  apply DecimalN.Unsigned.of_to.
Qed.

Lemma int_of_digits_zero (s : string) :
  int_of_digits (String "0" s) = int_of_digits s.
Proof.
  unfold int_of_digits. simpl.
  destruct (NilEmpty.uint_of_string s); reflexivity.
Qed.

Lemma int_of_digits_zeros (n : nat) (s : string) :
  int_of_digits (zeros n +:+ s) = int_of_digits s.
Proof.
  induction n as [|n IH]; str_simpl; [reflexivity|].
  by rewrite int_of_digits_zero.
Qed.

(** A digit prefix followed by a text that does not start with a digit
    is found again by [span_digits]. *)
Lemma span_digits_app (ds r : string) :
  str_forallb is_digit ds = true → no_leading_digit r = true →
  span_digits (ds +:+ r) = (ds, r).
Proof.
  intros Hds Hr. induction ds as [|c ds IH]; str_simpl.
  - destruct r as [|c r]; simpl in *; [reflexivity|].
    apply negb_true_iff in Hr. by rewrite Hr.
  - simpl in Hds. apply andb_prop in Hds as [Hc Hds]. rewrite Hc, (IH Hds). reflexivity.
Qed.

(** ** Text of a decimal and its reading *)

Lemma numchar_not_space (c : ascii) : is_numchar c = true → is_space c = false.
Proof. destruct c as [[] [] [] [] [] [] [] []]; vm_compute; congruence. Qed.

Lemma numchar_not_underscore (c : ascii) :
  is_numchar c = true → bool_decide ("_"%char = c) = false.
Proof. destruct c as [[] [] [] [] [] [] [] []]; vm_compute; congruence. Qed.

Lemma digit_numchar (c : ascii) : is_digit c = true → is_numchar c = true.
Proof. unfold is_numchar. intros ->. reflexivity. Qed.

Lemma lstrip_numeral (s : string) : str_forallb is_numchar s = true → lstrip s = s.
Proof.
  destruct s as [|c s]; simpl; [done|].
  intros [Hc _]%andb_prop. by rewrite (numchar_not_space _ Hc).
Qed.

Lemma rstrip_numeral (s : string) : str_forallb is_numchar s = true → rstrip s = s.
Proof.
  induction s as [|c s IH]; simpl; [done|].
  intros [Hc Hs]%andb_prop. rewrite (IH Hs).
  destruct s; [by rewrite (numchar_not_space _ Hc) | reflexivity].
Qed.

Lemma strip_numeral (s : string) : str_forallb is_numchar s = true → strip s = s.
Proof.
  intros H. unfold strip. rewrite (lstrip_numeral _ H). by apply rstrip_numeral.
Qed.

Lemma replace_underscore_numeral (s : string) :
  str_forallb is_numchar s = true → replace "_" "" s = s.
Proof.
  unfold replace. induction s as [|c s IH]; simpl; [done|].
  intros [Hc Hs]%andb_prop.
  rewrite (numchar_not_underscore _ Hc). simpl. by rewrite (IH Hs).
Qed.

(** Reading back a sign, an integer part, a dot and a fractional part. *)
Lemma Decimal_new_fixed (s : bool) (ip fp : string) :
  str_forallb is_digit ip = true → str_forallb is_digit fp = true → ip ≠ "" →
  Decimal_new (sign_str s +:+ ip +:+ "." +:+ fp)
  = Return (Finite s (int_of_digits (ip +:+ fp)) (- Z.of_nat (String.length fp))).
Proof.
  intros Hip Hfp Hne.
  assert (Hnum : str_forallb is_numchar (sign_str s +:+ ip +:+ "." +:+ fp) = true).
  { rewrite !forallb_app_str.
    rewrite (forallb_impl_str _ _ ip digit_numchar Hip).
    rewrite (forallb_impl_str _ _ fp digit_numchar Hfp).
    destruct s; reflexivity. }
  unfold Decimal_new. rewrite (strip_numeral _ Hnum), (replace_underscore_numeral _ Hnum).
  assert (Hsign : parse_sign (sign_str s +:+ ip +:+ "." +:+ fp) = (s, ip +:+ "." +:+ fp)).
  { destruct s; [reflexivity|]. str_simpl.
    destruct ip as [|c ip]; [done|]. str_simpl.
    simpl in Hip. apply andb_prop in Hip as [Hc _].
    destruct c as [[] [] [] [] [] [] [] []]; try reflexivity; vm_compute in Hc; congruence. }
  rewrite Hsign. unfold parse_number.
  rewrite (span_digits_app ip ("." +:+ fp) Hip eq_refl). str_simpl.
  rewrite <- (app_empty_r fp) at 1.
  rewrite (span_digits_app fp "" Hfp eq_refl).
  rewrite bool_decide_eq_false_2.
  2:{ destruct ip; [done | discriminate]. }
  simpl. do 2 f_equal; lia.
Qed.

(** The text of a decimal with exponent [-2]. *)
Lemma Decimal_str_cents (s : bool) (c : N) :
  ∃ ip fp : string,
    Decimal_str (Finite s c (-2)) = sign_str s +:+ ip +:+ "." +:+ fp ∧
    str_forallb is_digit ip = true ∧ str_forallb is_digit fp = true ∧
    ip ≠ "" ∧ String.length fp = 2%nat ∧ int_of_digits (ip +:+ fp) = c.
Proof.
  pose proof (digits_all_digit c) as Hd.
  pose proof (digits_nonempty c) as Hne.
  pose proof (int_of_digits_digits c) as Hv.
  unfold Decimal_str.
  set (ds := digits c) in *.
  assert (Hlen : (1 ≤ String.length ds)%nat) by (destruct ds; [done | simpl; lia]).
  replace ((-2 <=? 0) && (-6 <? -2 + Z.of_nat (String.length ds))) with true
    by (symmetry; apply andb_true_intro; split; [reflexivity | apply Z.ltb_lt; lia]).
  rewrite Z.eqb_refl, app_empty_r.
  destruct (Z.leb_spec (-2 + Z.of_nat (String.length ds)) 0) as [Hle|Hgt].
  - exists "0", (zeros (Z.to_nat (- (-2 + Z.of_nat (String.length ds)))) +:+ ds).
    split; [reflexivity|].
    rewrite forallb_app_str, forallb_zeros, Hd, length_app_str, length_zeros.
    repeat split; try done; [lia|].
    str_simpl. by rewrite int_of_digits_zero, int_of_digits_zeros.
  - replace (Z.of_nat (String.length ds) <=? -2 + Z.of_nat (String.length ds)) with false
      by (symmetry; apply Z.leb_gt; lia).
    set (k := Z.to_nat (-2 + Z.of_nat (String.length ds))).
    exists (str_take k ds), (str_drop k ds).
    split; [reflexivity|].
    rewrite (forallb_take_str _ _ _ Hd), (forallb_drop_str _ _ _ Hd).
    rewrite length_str_drop, str_take_drop.
    repeat split; try done; [|lia].
    intros Hemp. assert (Hk : String.length (str_take k ds) = k)
      by (apply length_str_take; lia).
    rewrite Hemp in Hk. simpl in Hk. lia.
Qed.

Lemma Decimal_new_str_cents (s : bool) (c : N) :
  Decimal_new (Decimal_str (Finite s c (-2))) = Return (Finite s c (-2)).
Proof.
  destruct (Decimal_str_cents s c) as (ip & fp & -> & Hip & Hfp & Hne & Hlen & Hv).
  rewrite (Decimal_new_fixed s ip fp Hip Hfp Hne), Hv, Hlen. reflexivity.
Qed.

(** ** [validate_price] *)

Lemma rescale_same (c : N) (e : Z) (r : rounding) : rescale c e e r = c.
Proof.
  unfold rescale. rewrite Z.leb_refl, Z.sub_diag. simpl. lia.
Qed.

Lemma rescale_half_up (c : N) (e : Z) :
  half_up_cents c e (rescale c e (-2) ROUND_HALF_UP).
Proof.
  unfold half_up_cents, rescale.
  destruct (Z.leb_spec (-2) e) as [Hle|Hlt].
  - rewrite N2Z.inj_mul, N2Z.inj_pow, Z2N.id by lia. simpl.
    repeat f_equal; lia.
  - set (k := Z.to_N (-2 - e)).
    assert (Hp : 10 ^ (-2 - e) = Z.of_N (10 ^ k)).
    { rewrite N2Z.inj_pow. unfold k. rewrite Z2N.id by lia. reflexivity. }
    cbv zeta. rewrite Hp. clear Hp.
    assert (Hpos : (0 < 10 ^ k)%N).
    { apply N.neq_0_lt_0, N.pow_nonzero. discriminate. }
    set (p := (10 ^ k)%N) in *.
    pose proof (N.div_mod c p ltac:(lia)) as Hdm.
    pose proof (N.mod_lt c p ltac:(lia)) as Hr.
    set (q := (c / p)%N) in *. set (r := (c mod p)%N) in *.
    destruct (N.leb_spec p (2 * r)) as [Hup|Hdown]; nia.
Qed.

(** What an accepted price looks like. *)
Lemma validate_price_Return (price : scalar) (d : Decimal) :
  validate_price price = Return d →
  ∃ s c e c',
    Decimal_new (py_str price) = Return (Finite s c e) ∧
    d = Finite s c' (-2) ∧
    (c' = 0%N ∨ ndigits c' ≤ prec) ∧
    (s = true → c' = 0%N) ∧
    (c = 0%N ∧ c' = 0%N ∨ c' = rescale c e (-2) ROUND_HALF_UP).
Proof.
  unfold validate_price.
  destruct (Decimal_new (py_str price)) as [[s c e|s|s [] p]|x] eqn:Hnew;
    simpl; try discriminate.
  2:{ destruct x; discriminate. }
  destruct (c =? 0)%N eqn:Hc; simpl.
  - destruct s; simpl; intros [= <-]; apply N.eqb_eq in Hc;
      eexists _, c, e, 0%N; (split; [reflexivity|]); repeat split; auto.
  - destruct (Emax <? adjusted c e); simpl; [discriminate|].
    destruct (prec <? adjusted c e - -2 + 1); simpl; [discriminate|].
    destruct (Emax <? _); simpl; [discriminate|].
    destruct (Z.ltb_spec prec (ndigits (rescale c e (-2) ROUND_HALF_UP))) as [|Hdig];
      simpl; [discriminate|].
    destruct (s && negb (rescale c e (-2) ROUND_HALF_UP =? 0)%N) eqn:Hneg;
      simpl; [discriminate|].
    intros [= <-]. exists s, c, e, (rescale c e (-2) ROUND_HALF_UP).
    repeat split; auto.
    intros ->. simpl in Hneg. apply negb_false_iff, N.eqb_eq in Hneg. exact Hneg.
Qed.

(** [validate_price] raises nothing but [PRICATValidationError]. *)
Lemma validate_price_Raise (price : scalar) (e : exn) :
  validate_price price = Raise e → ∃ msg, e = PRICATValidationError msg.
Proof.
  unfold validate_price.
  destruct (Decimal_new (py_str price)) as [d|x] eqn:Hnew.
  2:{ unfold Decimal_new in Hnew.
      destruct (parse_sign _) as [sg body].
      destruct (parse_number sg body); [discriminate|].
      destruct (parse_special sg body); [discriminate|].
      injection Hnew as <-. simpl. intros [= <-]. eauto. }
  simpl.
  destruct (quantize d (-2) ROUND_HALF_UP) as [d'|x] eqn:Hq; simpl.
  2:{ assert (x = InvalidOperation) as ->.
      { destruct d as [s c e0|s|s [] p]; simpl in Hq; try congruence.
        repeat (match type of Hq with
                | (if ?b then _ else _) = _ => destruct b
                end; try congruence). }
      simpl. intros [= <-]. eauto. }
  destruct d' as [s c e0|s|s g p]; simpl.
  - destruct (s && negb (c =? 0)%N); simpl; [|discriminate].
    intros [= <-]. eauto.
  - destruct s; simpl; [|discriminate]. intros [= <-]. eauto.
  - intros [= <-]. eauto.
Qed.

Lemma validate_price_cents (s : bool) (c : N) :
  (c = 0%N ∨ ndigits c ≤ prec) → (s = true → c = 0%N) →
  validate_price (SDec (Finite s c (-2))) = Return (Finite s c (-2)).
Proof.
  intros Hdig Hsign. unfold validate_price.
  change (py_str (SDec (Finite s c (-2)))) with (Decimal_str (Finite s c (-2))).
  rewrite Decimal_new_str_cents. simpl.
  destruct (N.eqb_spec c 0) as [->|Hnz]; simpl.
  - destruct s; reflexivity.
  - destruct Hdig as [|Hdig]; [done|].
    unfold adjusted. rewrite rescale_same.
    unfold prec, Emax in *.
    replace (999999 <? -2 + ndigits c - 1) with false by (symmetry; apply Z.ltb_ge; lia).
    replace (28 <? -2 + ndigits c - 1 - -2 + 1) with false by (symmetry; apply Z.ltb_ge; lia).
    replace (28 <? ndigits c) with false by (symmetry; apply Z.ltb_ge; lia).
    simpl.
    destruct s; simpl; [|reflexivity].
    specialize (Hsign eq_refl). done.
Qed.

(** C5. [validate_price] is idempotent: a price that it accepts is
    accepted again, with the same result, when the result is handed back
    to it. *)
Theorem validate_price_idempotent (price : scalar) (d : Decimal) :
  validate_price price = Return d → validate_price (SDec d) = Return d.
Proof.
  intros H.
  destruct (validate_price_Return _ _ H) as (s & c & e & c' & _ & -> & Hdig & Hsign & _).
  by apply validate_price_cents.
Qed.

Lemma validate_price_idempotent_witness :
  validate_price (SDec (Finite false 101 (-2))) = Return (Finite false 101 (-2)).
Proof.
  apply (validate_price_idempotent (SStr "1.005")). vm_compute. reflexivity.
Defined.




(** ** [validate_data] *)

Lemma getitem_Return {V} (d : gmap string V) (key : string) (v : V) :
  getitem d key = Return v ↔ d !! key = Some v.
Proof.
  unfold getitem. destruct (d !! key); split; intros H; congruence.
Qed.

Lemma has_key_true {V} (d : gmap string V) (key : string) :
  has_key d key = true ↔ ∃ v, d !! key = Some v.
Proof.
  unfold has_key. rewrite bool_decide_eq_true. reflexivity.
Qed.

Lemma has_key_false {V} (d : gmap string V) (key : string) :
  has_key d key = false ↔ d !! key = None.
Proof.
  unfold has_key. rewrite bool_decide_eq_false, <- eq_None_not_Some. reflexivity.
Qed.

Lemma for_each_Return {A} (f : A → result unit) (l : list A) :
  for_each f l = Return () ↔ Forall (λ x, f x = Return ()) l.
Proof.
  induction l as [|x l IH]; simpl.
  - split; [constructor | reflexivity].
  - rewrite Forall_cons, <- IH.
    destruct (f x) as [[]|e]; simpl; intuition congruence.
Qed.

(** A step that fails makes the loop fail. *)
Lemma for_each_not_Return {A} (f : A → result unit) (l : list A) (x : A) :
  x ∈ l → f x ≠ Return () → for_each f l ≠ Return ().
Proof.
  intros Hin Hx H. apply for_each_Return in H.
  rewrite Forall_forall in H. by apply Hx, H.
Qed.

Lemma check_required_Return (data : record) (field : string) (t : pytype) :
  check_required data (field, t) = Return () →
  ∃ v, data !! field = Some v ∧ isinstance v t = true ∧
       (t = Tlist → is_empty v = false).
Proof.
  unfold check_required.
  destruct (has_key data field) eqn:Hk; simpl; [|discriminate].
  apply has_key_true in Hk as [v Hv]. unfold getitem. rewrite Hv. simpl.
  destruct (isinstance v t) eqn:Hi; simpl; [|discriminate].
  destruct (bool_decide (t = Tlist) && is_empty v) eqn:He; [discriminate|].
  intros _. exists v. repeat split; auto.
  intros ->. simpl in He. exact He.
Qed.

Lemma check_required_missing (data : record) (field : string) (t : pytype) :
  data !! field = None →
  check_required data (field, t)
  = Raise (PRICATValidationError ("Missing required field: " +:+ field)).
Proof.
  intros H. unfold check_required.
  apply has_key_false in H. rewrite H. reflexivity.
Qed.

Lemma isinstance_str (v : value) :
  isinstance v Tstr = true → ∃ s, v = Scalar (SStr s).
Proof. destruct v as [[]|]; simpl; try discriminate. eauto. Qed.

Lemma isinstance_list (v : value) :
  isinstance v Tlist = true → ∃ l, v = List l.
Proof. destruct v as [|l]; simpl; try discriminate. eauto. Qed.

(** What a record that passes validation looks like. *)
Lemma validate_data_Return (w : World) (data : record) (quals currs : gset string) :
  validate_data w data quals currs = Return () →
  ∃ m c n v ps its, valid_record data quals m c n v ps its.
Proof.
  unfold validate_data. intros H.
  apply bind_Return in H as ([] & Hreq & H).
  apply for_each_Return in Hreq. unfold required_fields in Hreq.
  repeat match type of Hreq with
         | Forall _ (_ :: _) => apply Forall_cons in Hreq as [?%check_required_Return Hreq]
         end.
  clear Hreq.
  repeat match goal with
         | H : ∃ v, _ |- _ => destruct H as (? & ? & ? & ?)
         end.
  repeat match goal with
         | H : isinstance _ Tstr = true |- _ => apply isinstance_str in H as [? ->]
         | H : isinstance _ Tlist = true |- _ => apply isinstance_list in H as [? ->]
         end.
  repeat match goal with
         | Hne : Tlist = Tlist → is_empty (List ?l) = false |- _ =>
             assert (l ≠ []) by (intros ->; specialize (Hne eq_refl); discriminate);
             clear Hne
         end.
  match goal with
  | Hm : data !! "message_ref" = Some (Scalar (SStr ?m)),
    Hc : data !! "doc_code" = Some (Scalar (SStr ?c)),
    Hn : data !! "doc_number" = Some (Scalar (SStr ?n)),
    Hv : data !! "edifact_version" = Some (Scalar (SStr ?v)),
    Hp : data !! "parties" = Some (List ?ps),
    Hi : data !! "items" = Some (List ?its) |- _ =>
      exists m, c, n, v, ps, its;
      unfold getitem in H; rewrite Hv, Hp, Hi in H; simpl in H
  end.
  destruct (version_re_match _) eqn:Hre; simpl in H; [|discriminate].
  destruct (value_in _ currs) as [[]|]; simpl in H; try discriminate.
  apply bind_Return in H as ([] & Hps & H).
  apply for_each_Return in Hps. apply for_each_Return in H.
  split; auto.
Qed.




(** ** The encoder *)

Lemma enc_bind_unfold {A B} (m : enc A) (f : A → enc B) (st : locals) :
  (m ≫= f) st =
  match m st with
  | (Return a, st') => f a st'
  | (Raise e, st') => (Raise e, st')
  end.
Proof. reflexivity. Qed.

Lemma party_step_cases (party : obj) (st : locals) :
  (∃ e, party_step party st = (Raise e, st)) ∨
  ((∃ q, party !! "qualifier" = Some q) ∧ (∃ id, party !! "id" = Some id) ∧
   party_step party st
   = (Return (), {| segments := segments st ++ [nad_segment party];
                    total_amount := total_amount st;
                    item_count := item_count st |})).
Proof.
  unfold party_step, nad_segment, get. rewrite !enc_bind_unfold. unfold eval, getitem.
  destruct (party !! "qualifier") as [q|] eqn:Hq; [|left; eauto].
  rewrite !enc_bind_unfold.
  destruct (party !! "id") as [id|] eqn:Hi; [|left; eauto].
  right. repeat split; eauto.
Qed.

Lemma enc_for_party_step (ps : list obj) (st st' : locals) :
  enc_for party_step ps st = (Return (), st') →
  st' = {| segments := segments st ++ (nad_segment <$> ps);
           total_amount := total_amount st; item_count := item_count st |}.
Proof.
  revert st. induction ps as [|party ps IH]; intros st; simpl.
  - intros [= <-]. rewrite app_nil_r. by destruct st.
  - rewrite enc_bind_unfold.
    destruct (party_step_cases party st) as [[e ->]|(_ & _ & ->)]; [discriminate|].
    intros H. apply IH in H. rewrite H. simpl.
    by rewrite <- app_assoc.
Qed.


(** The [try] block of an item, step by step. *)
Lemma item_body_eq (index : nat) (item : obj) (st : locals) :
  item_body index item st =
  match item !! "price" with
  | None => (Raise (KeyError "price"), st)
  | Some p =>
      match validate_price p with
      | Raise e => (Raise e, st)
      | Return d =>
          match item !! "description" with
          | None => (Raise (KeyError "description"), st)
          | Some (SStr desc) =>
              match item !! "product_code" with
              | None => (Raise (KeyError "product_code"), st)
              | Some pc =>
                  (Return (), with_item st (line_segments index item pc desc d) d)
              end
          | Some _ => (Raise AttributeError, st)
          end
      end
  end.
Proof.
  unfold item_body, with_item, line_segments, has_key, get, getitem, eval, extend,
    add_to_total, incr_item_count.
  rewrite !enc_bind_unfold.
  destruct (item !! "price") as [p|]; simpl; [|reflexivity].
  destruct (validate_price p) as [d|]; simpl; [|reflexivity].
  rewrite !enc_bind_unfold.
  destruct (item !! "description") as [[| | |desc|]|]; simpl; try reflexivity.
  rewrite !enc_bind_unfold.
  destruct (item !! "product_code") as [pc|]; simpl; [|reflexivity].
  rewrite !enc_bind_unfold.
  destruct (item !! "quantity") as [q|]; simpl.
  - rewrite <- app_assoc. reflexivity.
  - reflexivity.
Qed.

(** The [try] block of an item either raises before it has touched the
    local variables, or runs to its end. *)
Lemma item_body_cases (index : nat) (item : obj) (st : locals) :
  (∃ e, item_body index item st = (Raise e, st)) ∨
  (∃ p d desc pc,
     item !! "price" = Some p ∧ validate_price p = Return d ∧
     item !! "description" = Some (SStr desc) ∧
     item !! "product_code" = Some pc ∧
     item_body index item st
     = (Return (), with_item st (line_segments index item pc desc d) d)).
Proof.
  rewrite item_body_eq.
  destruct (item !! "price") as [p|] eqn:Hp; [|left; eauto].
  destruct (validate_price p) as [d|] eqn:Hv; [|left; eauto].
  destruct (item !! "description") as [[| | |desc|]|] eqn:Hd; try (left; eauto; fail).
  destruct (item !! "product_code") as [pc|] eqn:Hpc; [|left; eauto].
  right. exists p, d, desc, pc. by repeat split.
Qed.



(** ** The loop over the items *)

Lemma enumerate_app {A} (start : nat) (a b : list A) :
  enumerate start (a ++ b) = enumerate start a ++ enumerate (start + length a) b.
Proof.
  revert start. induction a as [|x a IH]; intros start; simpl.
  - by rewrite Nat.add_0_r.
  - rewrite IH. by replace (start + S (length a))%nat with (S start + length a)%nat by lia.
Qed.

Lemma enc_for_app {A} (f : A → enc unit) (a b : list A) (st : locals) :
  enc_for f (a ++ b) st =
  match enc_for f a st with
  | (Return _, st') => enc_for f b st'
  | (Raise e, st') => (Raise e, st')
  end.
Proof.
  revert st. induction a as [|x a IH]; intros st; simpl; [reflexivity|].
  rewrite !enc_bind_unfold. destruct (f x st) as [[[]|e] st1]; [apply IH | reflexivity].
Qed.

Lemma item_step_eq (strict : bool) (index : nat) (item : obj) (st : locals) :
  item_step strict (index, item) st =
  match item_body index item st with
  | (Raise (KeyError k), st') =>
      if strict then
        (Raise (PRICATValidationError
                  ("Invalid item " +:+ str_of_nat index +:+ ": " +:+ exn_str (KeyError k))), st')
      else (Return (), st')
  | (Raise (PRICATValidationError m), st') =>
      if strict then
        (Raise (PRICATValidationError
                  ("Invalid item " +:+ str_of_nat index +:+ ": " +:+ m)), st')
      else (Return (), st')
  | other => other
  end.
Proof.
  unfold item_step, try_item, item_handler. simpl.
  destruct (item_body index item st) as [[[]|[]] st']; destruct strict; reflexivity.
Qed.



(** When a step of the loop returns, it has either left the local
    variables alone or appended the segments of the item. *)
Lemma item_step_Return (strict : bool) (index : nat) (item : obj) (st st' : locals) :
  item_step strict (index, item) st = (Return (), st') →
  (st' = st ∧ ∃ e, item_body index item st = (Raise e, st)) ∨
  (∃ p d desc pc,
     item !! "price" = Some p ∧ validate_price p = Return d ∧
     item !! "description" = Some (SStr desc) ∧
     item !! "product_code" = Some pc ∧
     st' = with_item st (line_segments index item pc desc d) d).
Proof.
  rewrite item_step_eq.
  destruct (item_body_cases index item st)
    as [[e He]|(p & d & desc & pc & Hp & Hv & Hd & Hpc & Hb)].
  - rewrite He. destruct e, strict; intros [= <-]; left; eauto.
  - rewrite Hb. intros [= <-]. right. exists p, d, desc, pc. auto.
Qed.

Lemma encode_items_cons (strict : bool) (start : nat) (item : obj)
    (items : list obj) (st : locals) :
  encode_items strict start (item :: items) st =
  match item_step strict (start, item) st with
  | (Return _, st') => encode_items strict (S start) items st'
  | (Raise e, st') => (Raise e, st')
  end.
Proof. unfold encode_items. simpl. by rewrite enc_bind_unfold. Qed.

Lemma encode_items_app (strict : bool) (start : nat) (a b : list obj) (st : locals) :
  encode_items strict start (a ++ b) st =
  match encode_items strict start a st with
  | (Return _, st') => encode_items strict (start + length a) b st'
  | (Raise e, st') => (Raise e, st')
  end.
Proof. unfold encode_items. by rewrite enumerate_app, enc_for_app. Qed.


(** ** [generate_edi_segments] *)

Lemma generate_edi_segments_eq (data : record) (strict : bool) (w : World) :
  generate_edi_segments data strict w =
  st ← before_items w data;
  items ← getitem data "items" ≫= iter_dicts;
  finish (encode_items strict 1 items st).
Proof.
  unfold generate_edi_segments, before_items, finish.
  destruct (header_segments w data) as [h|e]; simpl; [|reflexivity].
  rewrite !enc_bind_unfold. unfold eval at 1.
  destruct (getitem data "parties" ≫= iter_dicts) as [ps|e]; simpl; [|reflexivity].
  rewrite !enc_bind_unfold.
  destruct (enc_for party_step ps _) as [[[]|e] st1]; simpl; [|reflexivity].
  rewrite !enc_bind_unfold. unfold eval at 1.
  destruct (getitem data "items" ≫= iter_dicts) as [its|e]; simpl; reflexivity.
Qed.

Lemma header_segments_Return (w : World) (data : record) (h : list string) :
  header_segments w data = Return h →
  ∃ mr ver dc dn,
    data !! "message_ref" = Some mr ∧
    getitem data "edifact_version" ≫= value_upper = Return ver ∧
    data !! "doc_code" = Some dc ∧ data !! "doc_number" = Some dn ∧
    h = [ UNA_SEGMENT;
          "UNH+" +:+ format_value w mr +:+ "+PRICAT:" +:+ ver +:+ "'";
          "BGM+" +:+ format_value w dc +:+ "+" +:+ format_value w dn +:+ "+9'";
          "DTM+137:" +:+ today w +:+ ":102'";
          "CUX+2:" +:+ format_value w (get data "currency" (Scalar (SStr "EUR"))) +:+ ":9'";
          "RFF+ON:" +:+ format_value w dn +:+ "'" ].
Proof.
  unfold header_segments. intros H.
  apply bind_Return in H as (mr & Hmr%getitem_Return & H).
  apply bind_Return in H as (ver & Hver & H).
  apply bind_Return in H as (dc & Hdc%getitem_Return & H).
  apply bind_Return in H as (dn & Hdn%getitem_Return & H).
  injection H as <-. exists mr, ver, dc, dn. auto.
Qed.



(** ** [generate_pricat] *)

Lemma generate_pricat_with_invalid
    (encode : record → bool → World → result (list string * Decimal * nat))
    (data : record) (filename : option string) (overwrite : bool) (w : World) (e : exn) :
  validate_data w data VALID_QUALIFIERS VALID_CURRENCIES = Raise e →
  generate_pricat_with encode data filename overwrite w = ("", w).
Proof.
  intros H. unfold generate_pricat_with, message_segments. rewrite H. simpl.
  destruct e; reflexivity.
Qed.

Lemma check_required_Raise (data : record) (f : string * pytype) (e : exn) :
  check_required data f = Raise e → ∃ msg, e = PRICATValidationError msg.
Proof.
  destruct f as [field t]. unfold check_required.
  destruct (has_key data field) eqn:Hk; simpl; [|intros [= <-]; eauto].
  apply has_key_true in Hk as [v Hv]. unfold getitem. rewrite Hv. simpl.
  destruct (isinstance v t); simpl; [|intros [= <-]; eauto].
  destruct (bool_decide (t = Tlist) && is_empty v); [intros [= <-]; eauto | discriminate].
Qed.

Lemma for_each_check_required_Raise (data : record) (l : list (string * pytype)) (e : exn) :
  for_each (check_required data) l = Raise e → ∃ msg, e = PRICATValidationError msg.
Proof.
  induction l as [|f l IH]; simpl; [discriminate|].
  destruct (check_required data f) as [[]|x] eqn:Hf; simpl; [exact IH|].
  intros [= <-]. by eapply check_required_Raise.
Qed.

(** A record without one of the required fields is rejected, whatever
    the rest of it is, before the encoder is called and before any file
    is touched. *)
Lemma missing_required_aborts
    (encode : record → bool → World → result (list string * Decimal * nat))
    (data : record) (field : string) (t : pytype)
    (filename : option string) (overwrite : bool) (w : World) :
  (field, t) ∈ required_fields → data !! field = None →
  (∃ msg, validate_data w data VALID_QUALIFIERS VALID_CURRENCIES
          = Raise (PRICATValidationError msg)) ∧
  generate_pricat_with encode data filename overwrite w = ("", w).
Proof.
  intros Hin Hnone.
  assert (Hreq : ∃ msg, for_each (check_required data) required_fields
                        = Raise (PRICATValidationError msg)).
  { destruct (for_each (check_required data) required_fields) as [[]|e] eqn:Hfe.
    - exfalso. eapply (for_each_not_Return _ _ _ Hin); [|exact Hfe].
      rewrite (check_required_missing _ _ _ Hnone). discriminate.
    - destruct (for_each_check_required_Raise _ _ _ Hfe) as [msg ->]. eauto. }
  destruct Hreq as [msg Hreq].
  assert (Hv : validate_data w data VALID_QUALIFIERS VALID_CURRENCIES
               = Raise (PRICATValidationError msg)).
  { unfold validate_data. rewrite Hreq. reflexivity. }
  split; [eauto|]. by eapply generate_pricat_with_invalid.
Qed.


(** ** The claims about the entry point *)

(** C1 (the code departs from the claim). On the record of the
    [__main__] block the message has 24 segments, 23 of them after the
    service string advice, and the trailer carries the count 21: the
    [MOA] segment and the trailer itself are not counted. *)
Theorem unt_count_on_example :
  ∃ all,
    validate_data world0 example_data VALID_QUALIFIERS VALID_CURRENCIES = Return () ∧
    message_segments generate_edi_segments example_data world0 = Return all ∧
    (generate_pricat example_data None false world0).1 = join (String "010" "") all ∧
    head all = Some UNA_SEGMENT ∧
    length all = 24%nat ∧
    last all = Some "UNT+21+MSG123'".
Proof.
  exists [ "UNA:+.? '"; "UNH+MSG123+PRICAT:D:96A:UN'"; "BGM+9+PRICAT2023+9'";
           "DTM+137:20230515:102'"; "CUX+2:EUR:9'"; "RFF+ON:PRICAT2023'";
           "NAD+BY+BUYER001::91'"; "NAD+SU+SUPPLIER001::91'";
           "LIN+1++P1001:EN'"; "IMD+F++:::Product 1'"; "PRI+AAA:125.99:UP'";
           "PRI+AAB:125.99:UP'"; "QTY+47:10:PCE'";
           "LIN+2++P1002:EN'"; "IMD+F++:::Product 2'"; "PRI+AAA:89.50:UP'";
           "PRI+AAB:89.50:UP'"; "QTY+47:5:PCE'";
           "LIN+3++P1003:EN'"; "IMD+F++:::Product 3'"; "PRI+AAA:45.25:UP'";
           "PRI+AAB:45.25:UP'"; "MOA+86:260.74:EUR'"; "UNT+21+MSG123'" ].
  split; [vm_compute; reflexivity|].
  split; [vm_compute; reflexivity|].
  split; [vm_compute; reflexivity|].
  split; [reflexivity|].
  split; reflexivity.
Qed.


(** C6. A record that lacks one of [message_ref], [doc_code],
    [doc_number], [parties], [items] is rejected by [validate_data];
    [generate_pricat] returns the empty string and leaves the file system
    as it was, whichever encoder it would have called. *)
Theorem missing_field_gives_empty_output
    (data : record) (field : string) (filename : option string)
    (overwrite : bool) (w : World) :
  field ∈ ["message_ref"; "doc_code"; "doc_number"; "parties"; "items"] →
  data !! field = None →
  (∃ msg, validate_data w data VALID_QUALIFIERS VALID_CURRENCIES
          = Raise (PRICATValidationError msg)) ∧
  generate_pricat data filename overwrite w = ("", w) ∧
  ∀ encode, generate_pricat_with encode data filename overwrite w = ("", w).
Proof.
  intros Hin Hnone.
  assert (Ht : ∃ t, (field, t) ∈ required_fields).
  { unfold required_fields. set_unfold.
    destruct Hin as [->|[->|[->|[->|[->|[]]]]]]; eexists; eauto 10. }
  destruct Ht as [t Ht].
  split; [|split].
  - apply (missing_required_aborts generate_edi_segments data field t filename overwrite w Ht Hnone).
  - apply (missing_required_aborts generate_edi_segments data field t filename overwrite w Ht Hnone).
  - intros encode.
    apply (missing_required_aborts encode data field t filename overwrite w Ht Hnone).
Qed.

Lemma missing_field_gives_empty_output_witness :
  (∃ msg, validate_data world0 example_no_items VALID_QUALIFIERS VALID_CURRENCIES
          = Raise (PRICATValidationError msg)) ∧
  generate_pricat example_no_items filename_default false world0 = ("", world0) ∧
  ∀ encode, generate_pricat_with encode example_no_items filename_default false world0
            = ("", world0).
Proof.
  apply (missing_field_gives_empty_output example_no_items "items").
  - set_solver.
  - vm_compute. reflexivity.
Defined.

(** C3 (as amended). A record that lacks [edifact_version] and would be
    valid once the field is supplied is rejected with the failure
    "Missing required field: edifact_version"; [generate_pricat] returns
    the empty string and writes nothing.  No default version is used. *)
Theorem missing_version_is_rejected
    (data : record) (filename : option string) (overwrite : bool) (w : World) :
  data !! "edifact_version" = None →
  validate_data w (<["edifact_version" := Scalar (SStr "D:96A:UN")]> data)
    VALID_QUALIFIERS VALID_CURRENCIES = Return () →
  validate_data w data VALID_QUALIFIERS VALID_CURRENCIES
  = Raise (PRICATValidationError "Missing required field: edifact_version") ∧
  generate_pricat data filename overwrite w = ("", w).
Proof.
  intros Hnone Hval.
  assert (Hv : validate_data w data VALID_QUALIFIERS VALID_CURRENCIES
               = Raise (PRICATValidationError "Missing required field: edifact_version")).
  { destruct (validate_data_Return _ _ _ _ Hval) as (m & c & n & v & ps & its & Hrec).
    destruct Hrec as [Hm Hc Hn _ _ Hps Hits Hne Hpok _].
    rewrite lookup_insert_ne in Hm, Hc, Hn, Hps, Hits by done.
    assert (Hpne : ps ≠ []).
    { revert Hval. unfold validate_data. intros H.
      apply bind_Return in H as ([] & Hreq & _).
      apply for_each_Return in Hreq. unfold required_fields in Hreq.
      do 3 apply Forall_cons in Hreq as [_ Hreq].
      apply Forall_cons in Hreq as [Hreq _].
      apply check_required_Return in Hreq as (x & Hx & _ & Hemp).
      rewrite lookup_insert_ne in Hx by done.
      rewrite Hps in Hx. injection Hx as <-.
      specialize (Hemp eq_refl). intros ->. discriminate. }
    unfold validate_data, required_fields. simpl.
    unfold check_required, has_key, getitem.
    rewrite Hm, Hc, Hn, Hps, Hits, Hnone. simpl.
    destruct ps; [done|]. destruct its; [done|]. reflexivity. }
  split; [exact Hv|]. by eapply generate_pricat_with_invalid.
Qed.

Lemma missing_version_is_rejected_witness :
  validate_data world0 example_no_version VALID_QUALIFIERS VALID_CURRENCIES
  = Raise (PRICATValidationError "Missing required field: edifact_version") ∧
  generate_pricat example_no_version filename_default false world0 = ("", world0).
Proof.
  apply missing_version_is_rejected; vm_compute; reflexivity.
Defined.

(** C3, the claim as stated fails: the record of the [__main__] block is
    valid, and without its [edifact_version] it is rejected and the
    output does not contain the default version. *)
Lemma default_version_not_used :
  validate_data world0 example_data VALID_QUALIFIERS VALID_CURRENCIES = Return () ∧
  example_no_version !! "edifact_version" = None ∧
  ¬ (validate_data world0 example_no_version VALID_QUALIFIERS VALID_CURRENCIES = Return () ∧
     contains "PRICAT:D:96A:UN"
       (generate_pricat example_no_version filename_default false world0).1 = true).
Proof.
  split; [vm_compute; reflexivity|].
  split; [vm_compute; reflexivity|].
  intros [H _]. vm_compute in H. discriminate.
Qed.

(** C8. The result of [generate_pricat] does not depend on what the
    segment encoder does in strict mode: any encoder that agrees with
    [generate_edi_segments] in lenient mode gives the same result.  The
    strict mode does differ from the lenient one when
    [generate_edi_segments] is called directly. *)
Theorem generate_pricat_is_lenient :
  (∀ encode,
     (∀ data w, encode data false w = generate_edi_segments data false w) →
     ∀ data filename overwrite w,
       generate_pricat_with encode data filename overwrite w
       = generate_pricat data filename overwrite w) ∧
  strict_default = false ∧
  (∃ data w msg,
     generate_edi_segments data true w = Raise (PRICATValidationError msg) ∧
     is_Return (generate_edi_segments data false w) = true).
Proof.
  split; [|split; [reflexivity|]].
  - intros encode Hagree data filename overwrite w.
    unfold generate_pricat, generate_pricat_with, message_segments, strict_default.
    by rewrite Hagree.
  - exists example_skip, world0. eexists. split; vm_compute; reflexivity.
Qed.

Lemma generate_pricat_is_lenient_witness :
  generate_pricat_with lenient_only_encoder example_data filename_default false world0
  = generate_pricat example_data filename_default false world0.
Proof.
  apply (proj1 generate_pricat_is_lenient lenient_only_encoder).
  intros data w. reflexivity.
Defined.

(** ** The claims about failing items *)

Lemma header_segments_insert_items (w : World) (data : record) (x : value) :
  header_segments w (<["items" := x]> data) = header_segments w data.
Proof.
  unfold header_segments, getitem, get. by rewrite !lookup_insert_ne by done.
Qed.

Lemma before_items_insert_items (w : World) (data : record) (x : value) :
  before_items w (<["items" := x]> data) = before_items w data.
Proof.
  unfold before_items. rewrite header_segments_insert_items.
  unfold getitem. by rewrite lookup_insert_ne by done.
Qed.




(** An item whose price is not a number: skipped in lenient mode, named
    in the failure in strict mode. *)
Lemma bad_price_example :
  generate_edi_segments (<["items" := List [item_bad_price; item_ok_2]]> example_scenario)
    false world0
  = Return ([ "UNA:+.? '"; "UNH+MSG1+PRICAT:D:96A:UN'"; "BGM+9+D1+9'";
              "DTM+137:20230515:102'"; "CUX+2:EUR:9'"; "RFF+ON:D1'"; "NAD+BY+B1::91'";
              "LIN+2++P2:EN'"; "IMD+F++:::Gadget'"; "PRI+AAA:5.00:UP'";
              "PRI+AAB:5.00:UP'" ],
            Finite false 500 (-2), 1%nat) ∧
  generate_edi_segments (<["items" := List [item_bad_price; item_ok_2]]> example_scenario)
    true world0
  = Raise (PRICATValidationError "Invalid item 1: Invalid price value: ten").
Proof. split; vm_compute; reflexivity. Qed.

(** The end-to-end scenario: the total is 15.01, both items are counted,
    and the message has one [NAD] segment and the two [LIN] segments in
    the order of the record. *)
Lemma end_to_end_scenario :
  generate_edi_segments example_scenario false world0
  = Return ([ "UNA:+.? '"; "UNH+MSG1+PRICAT:D:96A:UN'"; "BGM+9+D1+9'";
              "DTM+137:20230515:102'"; "CUX+2:EUR:9'"; "RFF+ON:D1'"; "NAD+BY+B1::91'";
              "LIN+1++P1:EN'"; "IMD+F++:::Widget'"; "PRI+AAA:10.01:UP'";
              "PRI+AAB:10.01:UP'";
              "LIN+2++P2:EN'"; "IMD+F++:::Gadget'"; "PRI+AAA:5.00:UP'";
              "PRI+AAB:5.00:UP'" ],
            Finite false 1501 (-2), 2%nat) ∧
  Decimal_format_2f (Finite false 1501 (-2)) = "15.01".
Proof. split; vm_compute; reflexivity. Qed.




(** ** The claims about escaping *)

Lemma escape_edifact_spec (text : string) :
  escape_edifact text
  = str_concat_map (λ c, if bool_decide (c = "'"%char) then "?+" else String c "") text.
Proof.
  unfold escape_edifact, replace.
  induction text as [|c text IH]; simpl; [reflexivity|].
  rewrite IH. destruct (decide (c = "'"%char)) as [->|Hne].
  - reflexivity.
  - rewrite !bool_decide_eq_false_2 by congruence. reflexivity.
Qed.

(** C2 (the code departs from the claim). In ["O'Neil"] the apostrophe
    is replaced by the release character followed by a plus sign, not by
    the release character followed by the apostrophe. *)
Theorem escape_edifact_on_example :
  escape_edifact "O'Neil" = "O?+Neil" ∧
  escape_edifact "O'Neil" ≠ "O?'Neil" ∧
  contains SEG_SEPARATOR (escape_edifact "O'Neil") = false.
Proof.
  split; [vm_compute; reflexivity|].
  split; [vm_compute; discriminate | vm_compute; reflexivity].
Qed.

(** The segments of the items that the loop has encoded are in the
    result, and the loop only appends. *)
Lemma encode_items_Return_mem (strict : bool) (items : list obj) :
  ∀ (start : nat) (st st' : locals),
  encode_items strict start items st = (Return (), st') →
  ∃ extra, segments st' = segments st ++ extra ∧
    ∀ i item p d desc pc,
      items !! i = Some item →
      item !! "price" = Some p → validate_price p = Return d →
      item !! "description" = Some (SStr desc) →
      item !! "product_code" = Some pc →
      ∀ x, x ∈ line_segments (start + i) item pc desc d → x ∈ extra.
Proof.
  induction items as [|item items IH]; intros start st st'.
  - intros [= <-]. exists []. rewrite app_nil_r. split; [done|].
    intros i ? ? ? ? ? Hi. by rewrite lookup_nil in Hi.
  - rewrite encode_items_cons.
    destruct (item_step strict (start, item) st) as [[[]|x] st1] eqn:Hstep; [|discriminate].
    intros Hrest. destruct (IH _ _ _ Hrest) as (extra1 & Hsegs1 & Hmem1).
    apply item_step_Return in Hstep.
    assert (Hhead : ∃ extra0, segments st1 = segments st ++ extra0 ∧
      ∀ p d desc pc,
        item !! "price" = Some p → validate_price p = Return d →
        item !! "description" = Some (SStr desc) →
        item !! "product_code" = Some pc →
        ∀ x, x ∈ line_segments start item pc desc d → x ∈ extra0).
    { destruct Hstep as [[-> [e He]]|(p & d & desc & pc & Hp & Hv & Hd & Hpc & ->)].
      - exists []. rewrite app_nil_r. split; [done|].
        intros p d desc pc Hp Hv Hd Hpc. exfalso.
        rewrite item_body_eq, Hp, Hv, Hd, Hpc in He. discriminate.
      - eexists. split; [reflexivity|].
        intros p' d' desc' pc' Hp' Hv' Hd' Hpc' x Hx.
        assert (p' = p) by congruence. subst p'.
        assert (d' = d) by congruence. assert (desc' = desc) by congruence.
        assert (pc' = pc) by congruence. subst. exact Hx. }
    destruct Hhead as (extra0 & Hsegs0 & Hmem0).
    exists (extra0 ++ extra1). split.
    + by rewrite Hsegs1, Hsegs0, <- app_assoc.
    + intros [|i] it p d desc pc Hi Hp Hv Hd Hpc x Hx; simpl in Hi.
      * injection Hi as <-. rewrite Nat.add_0_r in Hx.
        apply elem_of_app. left. eauto.
      * apply elem_of_app. right.
        eapply (Hmem1 i it p d desc pc); eauto.
        by replace (S start + i)%nat with (start + S i)%nat by lia.
Qed.




(** On a record whose text fields contain apostrophes, every field but
    the description keeps them. *)
Lemma quotes_example :
  generate_edi_segments example_quotes false world0
  = Return ([ "UNA:+.? '"; "UNH+M'1+PRICAT:D:96A:UN'"; "BGM+9'+D'1+9'";
              "DTM+137:20230515:102'"; "CUX+2:EUR:9'"; "RFF+ON:D'1'";
              "NAD+B'Y+O'Brien::91'"; "LIN+1++P'1:EN'"; "IMD+F++:::5?+ cable'";
              "PRI+AAA:1.00:UP'"; "PRI+AAB:1.00:UP'"; "QTY+47:2':M''" ],
            Finite false 100 (-2), 1%nat).
Proof. vm_compute. reflexivity. Qed.

(* ===================================================================== *)
(** * Part III: further properties of the program *)
(* ===================================================================== *)

(** ** The number of digits of a coefficient *)

Lemma length_string_of_uint (u : Decimal.uint) :
  String.length (NilEmpty.string_of_uint u) = Decimal.nb_digits u.
Proof. induction u; simpl; congruence. Qed.

Ltac pow10_bounds u :=
  rewrite Nat2N.inj_succ, N.pow_succ_r';
  set (P := (10 ^ N.of_nat (Decimal.nb_digits u))%N) in *;
  assert (0 < P)%N by (apply N.neq_0_lt_0, N.pow_nonzero; discriminate);
  nia.

Lemma of_uint_acc_bounds (d : Decimal.uint) :
  ∀ acc : positive,
    (N.pos acc * 10 ^ N.of_nat (Decimal.nb_digits d)
     ≤ N.pos (Pos.of_uint_acc d acc)
     < (N.pos acc + 1) * 10 ^ N.of_nat (Decimal.nb_digits d))%N.
Proof.
  induction d as [|u IH|u IH|u IH|u IH|u IH|u IH|u IH|u IH|u IH|u IH];
    intros acc; simpl Pos.of_uint_acc; simpl Decimal.nb_digits.
  - simpl. lia.
  - specialize (IH (10 * acc)%positive). pow10_bounds u.
  - specialize (IH (1 + 10 * acc)%positive). pow10_bounds u.
  - specialize (IH (2 + 10 * acc)%positive). pow10_bounds u.
  - specialize (IH (3 + 10 * acc)%positive). pow10_bounds u.
  - specialize (IH (4 + 10 * acc)%positive). pow10_bounds u.
  - specialize (IH (5 + 10 * acc)%positive). pow10_bounds u.
  - specialize (IH (6 + 10 * acc)%positive). pow10_bounds u.
  - specialize (IH (7 + 10 * acc)%positive). pow10_bounds u.
  - specialize (IH (8 + 10 * acc)%positive). pow10_bounds u.
  - specialize (IH (9 + 10 * acc)%positive). pow10_bounds u.
Qed.

Lemma of_uint_bounds (d : Decimal.uint) :
  d ≠ Decimal.Nil → (∀ d', d ≠ Decimal.D0 d') →
  (10 ^ N.of_nat (Decimal.nb_digits d - 1) ≤ Pos.of_uint d
   < 10 ^ N.of_nat (Decimal.nb_digits d))%N.
Proof.
  intros Hnil Hzero.
  destruct d as [|u|u|u|u|u|u|u|u|u|u]; try done; [by destruct (Hzero u)|..];
    simpl Pos.of_uint; simpl Decimal.nb_digits;
    replace (S (Decimal.nb_digits u) - 1)%nat with (Decimal.nb_digits u) by lia.
  - pose proof (of_uint_acc_bounds u 1). pow10_bounds u.
  - pose proof (of_uint_acc_bounds u 2). pow10_bounds u.
  - pose proof (of_uint_acc_bounds u 3). pow10_bounds u.
  - pose proof (of_uint_acc_bounds u 4). pow10_bounds u.
  - pose proof (of_uint_acc_bounds u 5). pow10_bounds u.
  - pose proof (of_uint_acc_bounds u 6). pow10_bounds u.
  - pose proof (of_uint_acc_bounds u 7). pow10_bounds u.
  - pose proof (of_uint_acc_bounds u 8). pow10_bounds u.
  - pose proof (of_uint_acc_bounds u 9). pow10_bounds u.
Qed.

Lemma to_uint_no_leading_zero (p : positive) (d' : Decimal.uint) :
  Pos.to_uint p ≠ Decimal.D0 d'.
Proof.
  pose proof (DecimalPos.Unsigned.to_of (Pos.to_uint p)) as H.
  rewrite DecimalPos.Unsigned.of_to in H. simpl in H.
  intros Heq. rewrite Heq in H at 1.
  unfold Decimal.unorm in H.
  destruct (Decimal.nzhead (Pos.to_uint p)) eqn:Hnz.
  - apply (DecimalPos.Unsigned.to_uint_nonzero p). congruence.
  - injection H as <-. by apply (DecimalFacts.nzhead_nonzero (Pos.to_uint p) d').
  - discriminate.
  - discriminate.
  - discriminate.
  - discriminate.
  - discriminate.
  - discriminate.
  - discriminate.
  - discriminate.
  - discriminate.
Qed.

(** A non-zero coefficient with [n] digits lies between [10^(n-1)] and
    [10^n]. *)
Lemma ndigits_bounds (c : N) :
  c ≠ 0%N → 10 ^ (ndigits c - 1) ≤ Z.of_N c < 10 ^ ndigits c.
Proof.
  intros Hc. destruct c as [|p]; [done|].
  unfold ndigits, digits. rewrite length_string_of_uint. simpl N.to_uint.
  pose proof (of_uint_bounds (Pos.to_uint p)
                (DecimalPos.Unsigned.to_uint_nonnil p)
                (to_uint_no_leading_zero p)) as H.
  rewrite DecimalPos.Unsigned.of_to in H.
  assert (Hn : (1 ≤ Decimal.nb_digits (Pos.to_uint p))%nat).
  { pose proof (DecimalPos.Unsigned.to_uint_nonnil p).
    destruct (Pos.to_uint p); simpl; try done; lia. }
  set (n := Decimal.nb_digits (Pos.to_uint p)) in *.
  replace (Z.of_nat n - 1) with (Z.of_N (N.of_nat (n - 1))) by lia.
  replace (Z.of_nat n) with (Z.of_N (N.of_nat n)) at 2 by lia.
  rewrite <- !(N2Z.inj_pow 10). lia.
Qed.

Lemma ndigits_pos (c : N) : 1 ≤ ndigits c.
Proof.
  unfold ndigits. pose proof (digits_nonempty c).
  destruct (digits c); simpl; [done | lia].
Qed.

(** [c] has at most [k] digits exactly when it is below [10^k]. *)
Lemma ndigits_le (c : N) (k : Z) :
  1 ≤ k → ndigits c ≤ k ↔ Z.of_N c < 10 ^ k.
Proof.
  intros Hk. destruct (N.eq_dec c 0%N) as [->|Hc].
  - split; intros _; [apply Z.pow_pos_nonneg; lia | by vm_compute].
  - pose proof (ndigits_bounds c Hc) as [Hlo Hhi].
    pose proof (ndigits_pos c).
    split; intros H'.
    + eapply Z.lt_le_trans; [exact Hhi|]. apply Z.pow_le_mono_r; lia.
    + destruct (Z.le_gt_cases (ndigits c) k) as [|Hgt]; [done|].
      exfalso. assert (10 ^ k ≤ 10 ^ (ndigits c - 1)) by (apply Z.pow_le_mono_r; lia).
      lia.
Qed.

(** ** [validate_price] in terms of the value of the numeral *)

Lemma rescale_zero (e target : Z) (r : rounding) : rescale 0 e target r = 0%N.
Proof.
  unfold rescale. destruct (target <=? e); [lia|].
  rewrite N.Div0.div_0_l, N.Div0.mod_0_l.
  assert (0 < 10 ^ Z.to_N (target - e))%N
    by (apply N.neq_0_lt_0, N.pow_nonzero; discriminate).
  destruct r.
  - destruct (N.leb_spec (10 ^ Z.to_N (target - e)) (2 * 0)); [lia | reflexivity].
  - destruct (N.ltb_spec (10 ^ Z.to_N (target - e)) (2 * 0)); [lia|].
    destruct (N.eqb_spec (2 * 0) (10 ^ Z.to_N (target - e))); [lia | reflexivity].
Qed.

(** A coefficient with [n] digits at exponent [e] rounds to at least
    [10^(n+e+1)] hundredths. *)
Lemma rescale_lower_bound (c : N) (e : Z) :
  c ≠ 0%N → 0 ≤ ndigits c + e + 1 →
  10 ^ (ndigits c + e + 1) ≤ Z.of_N (rescale c e (-2) ROUND_HALF_UP).
Proof.
  intros Hc Hm.
  pose proof (ndigits_bounds c Hc) as [Hlo _].
  pose proof (ndigits_pos c) as Hn.
  pose proof (rescale_half_up c e) as Hr. unfold half_up_cents in Hr.
  set (c' := rescale c e (-2) ROUND_HALF_UP) in *.
  destruct (Z.leb_spec (-2) e) as [He|He].
  - rewrite Hr.
    replace (ndigits c + e + 1) with ((ndigits c - 1) + (e + 2)) by lia.
    rewrite Z.pow_add_r by lia.
    apply Z.mul_le_mono_nonneg_r; [apply Z.pow_nonneg; lia | exact Hlo].
  - cbv zeta in Hr.
    assert (Hsplit : 10 ^ (ndigits c - 1) = 10 ^ (ndigits c + e + 1) * 10 ^ (-2 - e)).
    { rewrite <- Z.pow_add_r by lia. f_equal. lia. }
    rewrite Hsplit in Hlo.
    assert (0 < 10 ^ (-2 - e)) by (apply Z.pow_pos_nonneg; lia).
    assert (0 < 10 ^ (ndigits c + e + 1)) by (apply Z.pow_pos_nonneg; lia).
    set (p := 10 ^ (-2 - e)) in *. set (m := 10 ^ (ndigits c + e + 1)) in *.
    nia.
Qed.

(** The two early tests of [quantize] never fire when the rounded
    coefficient has at most 28 digits. *)
Lemma quantize_in_range (s : bool) (c : N) (e : Z) :
  Z.of_N (rescale c e (-2) ROUND_HALF_UP) < 10 ^ 28 →
  quantize (Finite s c e) (-2) ROUND_HALF_UP
  = Return (Finite s (rescale c e (-2) ROUND_HALF_UP) (-2)).
Proof.
  intros Hlt. unfold quantize.
  destruct (N.eqb_spec c 0) as [->|Hc]; [by rewrite rescale_zero|].
  set (c' := rescale c e (-2) ROUND_HALF_UP) in *.
  assert (Hadj : ndigits c + e + 1 < 28).
  { destruct (Z.lt_ge_cases (ndigits c + e + 1) 28) as [|Hge]; [done|]. exfalso.
    pose proof (rescale_lower_bound c e Hc ltac:(lia)) as Hlow. fold c' in Hlow.
    assert (10 ^ 28 ≤ 10 ^ (ndigits c + e + 1)) by (apply Z.pow_le_mono_r; lia).
    lia. }
  assert (Hdig : ndigits c' ≤ 28) by (apply ndigits_le; [lia | exact Hlt]).
  pose proof (ndigits_pos c').
  unfold adjusted, Emax, prec.
  replace (999999 <? e + ndigits c - 1) with false by (symmetry; apply Z.ltb_ge; lia).
  replace (28 <? e + ndigits c - 1 - -2 + 1) with false by (symmetry; apply Z.ltb_ge; lia).
  replace (999999 <? -2 + ndigits c' - 1) with false by (symmetry; apply Z.ltb_ge; lia).
  replace (28 <? ndigits c') with false by (symmetry; apply Z.ltb_ge; lia).
  reflexivity.
Qed.

Lemma quantize_out_of_range (s : bool) (c : N) (e : Z) :
  10 ^ 28 ≤ Z.of_N (rescale c e (-2) ROUND_HALF_UP) →
  quantize (Finite s c e) (-2) ROUND_HALF_UP = Raise InvalidOperation.
Proof.
  intros Hge. unfold quantize.
  destruct (N.eqb_spec c 0) as [->|Hc].
  { rewrite rescale_zero in Hge. simpl in Hge. lia. }
  destruct (Emax <? adjusted c e); [reflexivity|].
  destruct (prec <? adjusted c e - -2 + 1); [reflexivity|].
  destruct (Emax <? _); [reflexivity|].
  destruct (Z.ltb_spec prec (ndigits (rescale c e (-2) ROUND_HALF_UP))) as [|Hle];
    [reflexivity|].
  exfalso. apply ndigits_le in Hle; unfold prec in *; lia.
Qed.

(** [validate_price] in terms of the value of its argument. *)
Lemma validate_price_outcome (price : scalar) :
  validate_price price = price_outcome price.
Proof.
  unfold validate_price, price_outcome.
  destruct (Decimal_new (py_str price)) as [[s c e|s|s [] p]|x] eqn:Hnew;
    try reflexivity.
  - change (Return (Finite s c e) ≫= ?f) with (f (Finite s c e)). cbv beta.
    destruct (Z.leb_spec (10 ^ 28) (Z.of_N (rescale c e (-2) ROUND_HALF_UP))) as [Hge|Hlt].
    + by rewrite (quantize_out_of_range s c e Hge).
    + rewrite (quantize_in_range s c e Hlt). simpl.
      destruct (s && negb (rescale c e (-2) ROUND_HALF_UP =? 0)%N); reflexivity.
  - unfold Decimal_new in Hnew.
    destruct (parse_sign _) as [sg body].
    destruct (parse_number sg body); [discriminate|].
    destruct (parse_special sg body); [discriminate|].
    by injection Hnew as <-.
Qed.


(** ** Integer prices *)

Lemma Decimal_new_integer (s : bool) (ds : string) :
  str_forallb is_digit ds = true → ds ≠ "" →
  Decimal_new (sign_str s +:+ ds) = Return (Finite s (int_of_digits ds) 0).
Proof.
  intros Hds Hne.
  assert (Hnum : str_forallb is_numchar (sign_str s +:+ ds) = true).
  { rewrite forallb_app_str, (forallb_impl_str _ _ ds digit_numchar Hds).
    destruct s; reflexivity. }
  unfold Decimal_new. rewrite (strip_numeral _ Hnum), (replace_underscore_numeral _ Hnum).
  assert (Hsign : parse_sign (sign_str s +:+ ds) = (s, ds)).
  { destruct s; [reflexivity|]. str_simpl.
    destruct ds as [|c ds]; [done|].
    simpl in Hds. apply andb_prop in Hds as [Hc _].
    destruct c as [[] [] [] [] [] [] [] []]; try reflexivity; vm_compute in Hc; congruence. }
  rewrite Hsign. unfold parse_number.
  rewrite <- (app_empty_r ds) at 1.
  rewrite (span_digits_app ds "" Hds eq_refl). str_simpl.
  rewrite app_empty_r, bool_decide_eq_false_2 by done.
  simpl. do 2 f_equal.
Qed.

(** X2. An integer price [z], of at most 4300 digits so that [str]
    converts it, is accepted, as [z.00], exactly when [0 <= z < 10^26];
    a negative integer above [-10^26] gives "Price cannot be negative",
    and an integer of 27 digits or more is an invalid value. *)
Theorem validate_price_of_int (z : Z) :
  Z.abs z < 10 ^ 4300 →
  validate_price (SInt z) =
  if 10 ^ 26 <=? Z.abs z then
    Raise (PRICATValidationError ("Invalid price value: " +:+ str_of_int z))
  else if z <? 0 then Raise (PRICATValidationError "Price cannot be negative")
  else Return (Finite false (Z.to_N (100 * z)) (-2)).
Proof.
  intros _. rewrite validate_price_outcome. unfold price_outcome.
  change (py_str (SInt z)) with (str_of_int z).
  assert (Hstr : str_of_int z = sign_str (z <? 0) +:+ digits (Z.abs_N z)).
  { unfold str_of_int. destruct (z <? 0); reflexivity. }
  rewrite Hstr at 1.
  rewrite (Decimal_new_integer _ _ (digits_all_digit _) (digits_nonempty _)).
  rewrite int_of_digits_digits.
  assert (Hres : rescale (Z.abs_N z) 0 (-2) ROUND_HALF_UP = (Z.abs_N z * 100)%N)
    by reflexivity.
  rewrite Hres.
  replace (10 ^ 28 <=? Z.of_N (Z.abs_N z * 100)) with (10 ^ 26 <=? Z.abs z).
  2:{ destruct (Z.leb_spec (10 ^ 26) (Z.abs z)), (Z.leb_spec (10 ^ 28) (Z.of_N (Z.abs_N z * 100)));
        try reflexivity; exfalso;
        change (10 ^ 28) with (10 ^ 26 * 100) in *; lia. }
  destruct (10 ^ 26 <=? Z.abs z); [reflexivity|].
  destruct (Z.ltb_spec z 0) as [Hneg|Hpos]; simpl.
  - replace (Z.abs_N z * 100 =? 0)%N with false by (symmetry; apply N.eqb_neq; lia).
    reflexivity.
  - do 2 f_equal. lia.
Qed.

Lemma validate_price_of_int_witness :
  validate_price (SInt 125) = Return (Finite false 12500 (-2)).
Proof. apply (validate_price_of_int 125). vm_compute. reflexivity. Defined.

(** ** [escape_edifact] *)

Lemma str_concat_map_app (f : ascii → string) (a b : string) :
  str_concat_map f (a +:+ b) = str_concat_map f a +:+ str_concat_map f b.
Proof.
  induction a as [|c a IH]; str_simpl; [reflexivity|].
  rewrite IH. clear IH. induction (f c) as [|x s IHs]; str_simpl; [reflexivity|].
  by rewrite IHs.
Qed.

(** Escaping goes through concatenation. *)
Lemma escape_edifact_app (a b : string) :
  escape_edifact (a +:+ b) = escape_edifact a +:+ escape_edifact b.
Proof. rewrite !escape_edifact_spec. apply str_concat_map_app. Qed.

Lemma contains_terminator_cons (c : ascii) (s : string) :
  contains SEG_SEPARATOR (String c s)
  = bool_decide (c = "'"%char) || contains SEG_SEPARATOR s.
Proof.
  unfold SEG_SEPARATOR. simpl.
  destruct (decide (c = "'"%char)) as [->|Hne]; [reflexivity|].
  rewrite !bool_decide_eq_false_2 by congruence. simpl.
  destruct s; reflexivity.
Qed.

Lemma escape_edifact_no_terminator (text : string) :
  contains SEG_SEPARATOR (escape_edifact text) = false.
Proof.
  rewrite escape_edifact_spec.
  induction text as [|c text IH]; [reflexivity|].
  simpl str_concat_map. destruct (decide (c = "'"%char)) as [->|Hne].
  - rewrite bool_decide_eq_true_2 by done. rewrite !app_cons, app_nil_l.
    rewrite !contains_terminator_cons, IH. reflexivity.
  - rewrite bool_decide_eq_false_2 by done. rewrite app_cons, app_nil_l.
    rewrite contains_terminator_cons, IH, bool_decide_eq_false_2 by done. reflexivity.
Qed.

(** X3. The text returned by [escape_edifact] never contains the segment
    terminator. *)
Theorem escape_edifact_removes_terminator (text : string) :
  contains SEG_SEPARATOR (escape_edifact text) = false.
Proof. apply escape_edifact_no_terminator. Qed.

Lemma escape_edifact_without_terminator (text : string) :
  contains SEG_SEPARATOR text = false → escape_edifact text = text.
Proof.
  rewrite escape_edifact_spec.
  induction text as [|c text IH]; [reflexivity|].
  rewrite contains_terminator_cons. intros [Hc Hs]%orb_false_elim.
  simpl. rewrite Hc. str_simpl. by rewrite (IH Hs).
Qed.

(** X4. A text without the segment terminator is returned unchanged, and
    escaping twice is the same as escaping once. *)
Theorem escape_edifact_idempotent :
  (∀ text, contains SEG_SEPARATOR text = false → escape_edifact text = text) ∧
  (∀ text, escape_edifact (escape_edifact text) = escape_edifact text).
Proof.
  split; [exact escape_edifact_without_terminator|].
  intros text. apply escape_edifact_without_terminator, escape_edifact_no_terminator.
Qed.

Lemma escape_edifact_idempotent_witness :
  escape_edifact "Product 1" = "Product 1".
Proof.
  apply (proj1 escape_edifact_idempotent). vm_compute. reflexivity.
Defined.

(** X5. Escaping loses information: a text with an apostrophe and the
    text that has a question mark and a plus sign in its place are
    different and are escaped to the same text. *)
Theorem escape_edifact_not_injective (a b : string) :
  a +:+ "'" +:+ b ≠ a +:+ "?+" +:+ b ∧
  escape_edifact (a +:+ "'" +:+ b) = escape_edifact (a +:+ "?+" +:+ b).
Proof.
  split.
  - intros H. apply (inj (String.app a)) in H. discriminate.
  - by rewrite !escape_edifact_app.
Qed.

(** ** What [validate_data] accepts *)








(** ** The first violation is the one reported *)

Lemma for_each_first_failure {A} (f : A → result unit) (pre post : list A) (x : A) (e : exn) :
  Forall (λ y, f y = Return ()) pre → f x = Raise e →
  for_each f (pre ++ x :: post) = Raise e.
Proof.
  intros Hpre Hx. induction Hpre as [|y pre Hy _ IH]; simpl.
  - by rewrite Hx.
  - by rewrite Hy.
Qed.

(** X7. The required fields are checked in their fixed order, and the
    failure is that of the first field that is missing, of the wrong
    kind, or an empty list: its name is in the message, whatever is
    wrong with the fields after it. *)
Theorem first_bad_field_is_reported
    (w : World) (data : record) (quals currs : gset string)
    (pre post : list (string * pytype)) (field : string) (t : pytype) :
  required_fields = pre ++ (field, t) :: post →
  Forall (λ f, ∃ v, data !! f.1 = Some v ∧ isinstance v f.2 = true ∧
                    (f.2 = Tlist → is_empty v = false)) pre →
  (data !! field = None →
   validate_data w data quals currs
   = Raise (PRICATValidationError ("Missing required field: " +:+ field))) ∧
  (∀ v, data !! field = Some v → isinstance v t = false →
   validate_data w data quals currs
   = Raise (PRICATValidationError ("Field " +:+ field +:+ " must be " +:+ type_name t))) ∧
  (data !! field = Some (List []) → t = Tlist →
   validate_data w data quals currs
   = Raise (PRICATValidationError ("Field " +:+ field +:+ " cannot be empty"))).
Proof.
  intros Hfields Hpre.
  assert (Hok : Forall (λ f, check_required data f = Return ()) pre).
  { eapply Forall_impl; [exact Hpre|]. intros [g u] (v & Hv & Hi & He). simpl in *.
    unfold check_required, has_key, getitem. rewrite Hv.
    rewrite bool_decide_eq_true_2 by eauto. simpl. rewrite Hi. simpl.
    destruct u; simpl; [reflexivity|]. by rewrite (He eq_refl). }
  assert (Hfail : ∀ e, check_required data (field, t) = Raise e →
                       validate_data w data quals currs = Raise e).
  { intros e He. unfold validate_data. rewrite Hfields.
    by rewrite (for_each_first_failure _ _ _ _ _ Hok He). }
  split; [|split].
  - intros Hnone. apply Hfail. by apply check_required_missing.
  - intros v Hv Hi. apply Hfail. unfold check_required, has_key, getitem.
    rewrite Hv, bool_decide_eq_true_2 by eauto. simpl. by rewrite Hi.
  - intros Hv ->. apply Hfail. unfold check_required, has_key, getitem.
    rewrite Hv, bool_decide_eq_true_2 by eauto. reflexivity.
Qed.

Lemma first_bad_field_is_reported_witness :
  validate_data world0 (delete "parties" example_no_items) VALID_QUALIFIERS VALID_CURRENCIES
  = Raise (PRICATValidationError "Missing required field: parties").
Proof.
  apply (proj1 (first_bad_field_is_reported world0 (delete "parties" example_no_items)
                  VALID_QUALIFIERS VALID_CURRENCIES
                  [ ("message_ref", Tstr); ("doc_code", Tstr); ("doc_number", Tstr) ]
                  [ ("items", Tlist); ("edifact_version", Tstr) ]
                  "parties" Tlist eq_refl
                  ltac:(repeat (constructor;
                                  [eexists; split; [vm_compute; reflexivity|];
                                   split; [reflexivity | discriminate] |]);
                        constructor))).
  vm_compute. reflexivity.
Defined.

(** ** The letter case of the version *)

Lemma char_upper_idempotent (c : ascii) : char_upper (char_upper c) = char_upper c.
Proof. destruct c as [[] [] [] [] [] [] [] []]; reflexivity. Qed.

Lemma upper_idempotent (s : string) : upper (upper s) = upper s.
Proof.
  unfold upper. induction s as [|c s IH]; simpl; [reflexivity|].
  by rewrite char_upper_idempotent, IH.
Qed.

Lemma validate_data_version_case (w : World) (data : record) (quals currs : gset string)
    (v v' : string) :
  upper v = upper v' →
  validate_data w (<["edifact_version" := Scalar (SStr v)]> data) quals currs
  = validate_data w (<["edifact_version" := Scalar (SStr v')]> data) quals currs.
Proof.
  intros Hup. unfold validate_data, required_fields. cbn [for_each].
  unfold check_required, has_key, getitem, get.
  rewrite !lookup_insert_eq. rewrite !lookup_insert_ne by done. simpl.
  by rewrite Hup.
Qed.

Lemma generate_edi_segments_version_case (w : World) (data : record) (strict : bool)
    (v v' : string) :
  upper v = upper v' →
  generate_edi_segments (<["edifact_version" := Scalar (SStr v)]> data) strict w
  = generate_edi_segments (<["edifact_version" := Scalar (SStr v')]> data) strict w.
Proof.
  intros Hup. rewrite !generate_edi_segments_eq.
  unfold before_items, header_segments, getitem, get.
  rewrite !lookup_insert_eq. rewrite !lookup_insert_ne by done.
  cbn [mbind result_bind value_upper]. by rewrite Hup.
Qed.

(** X8. The version is taken in upper case everywhere: two records that
    differ only in the letter case of [edifact_version] are validated
    alike and give the same output and the same file. *)
Theorem version_case_is_ignored
    (data : record) (v v' : string) (filename : option string)
    (overwrite : bool) (w : World) :
  upper v = upper v' →
  generate_pricat (<["edifact_version" := Scalar (SStr v)]> data) filename overwrite w
  = generate_pricat (<["edifact_version" := Scalar (SStr v')]> data) filename overwrite w.
Proof.
  intros Hup. unfold generate_pricat, generate_pricat_with, message_segments.
  rewrite (validate_data_version_case w data _ _ v v' Hup).
  rewrite (generate_edi_segments_version_case w data strict_default v v' Hup).
  unfold footer_segments, getitem, get.
  by rewrite !lookup_insert_ne by done.
Qed.

Lemma version_case_is_ignored_witness :
  generate_pricat (<["edifact_version" := Scalar (SStr "d:96a:un")]> example_data)
    None false world0
  = generate_pricat (<["edifact_version" := Scalar (SStr "D:96A:UN")]> example_data)
      None false world0.
Proof. apply version_case_is_ignored. vm_compute. reflexivity. Defined.

(** ** The two modes of the encoder *)

Lemma item_step_strict_Return (index : nat) (item : obj) (st st' : locals) :
  item_step true (index, item) st = (Return (), st') →
  item_step false (index, item) st = (Return (), st') ∧ item_count st' = S (item_count st).
Proof.
  rewrite !item_step_eq.
  destruct (item_body_cases index item st)
    as [[e He]|(p & d & desc & pc & _ & _ & _ & _ & Hb)].
  - rewrite He. destruct e; discriminate.
  - rewrite Hb. intros [= <-]. split; reflexivity.
Qed.

Lemma item_step_count (strict : bool) (index : nat) (item : obj) (st st' : locals) :
  item_step strict (index, item) st = (Return (), st') →
  (item_count st' = item_count st ∧ length (segments st') = length (segments st)) ∨
  (item_count st' = S (item_count st) ∧
   item_step true (index, item) st = (Return (), st') ∧
   4 + length (segments st) ≤ length (segments st') ≤ 5 + length (segments st))%nat.
Proof.
  intros H. pose proof H as H'. apply item_step_Return in H'.
  destruct H' as [[-> _]|(p & d & desc & pc & Hp & Hv & Hd & Hpc & ->)]; [left; done|].
  right. split; [reflexivity|]. split.
  - rewrite item_step_eq, item_body_eq, Hp, Hv, Hd, Hpc. reflexivity.
  - unfold with_item, line_segments. simpl. rewrite length_app. simpl.
    destruct (item !! "quantity"); simpl; lia.
Qed.

Lemma encode_items_strict_Return (items : list obj) :
  ∀ (start : nat) (st st' : locals),
  encode_items true start items st = (Return (), st') →
  encode_items false start items st = (Return (), st') ∧
  item_count st' = (item_count st + length items)%nat.
Proof.
  induction items as [|item items IH]; intros start st st'.
  - intros [= <-]. split; [reflexivity | simpl; lia].
  - rewrite !encode_items_cons.
    destruct (item_step true (start, item) st) as [[[]|x] st1] eqn:Hstep; [|discriminate].
    apply item_step_strict_Return in Hstep as [-> Hc].
    intros H. apply IH in H as [-> Hn]. split; [reflexivity|]. simpl. lia.
Qed.

(** The count and the number of segments grow together. *)
Lemma encode_items_counts (strict : bool) (items : list obj) :
  ∀ (start : nat) (st st' : locals),
  encode_items strict start items st = (Return (), st') →
  ∃ k : nat,
    item_count st' = (item_count st + k)%nat ∧ (k ≤ length items)%nat ∧
    (length (segments st) + 4 * k ≤ length (segments st')
     ≤ length (segments st) + 5 * k)%nat ∧
    (k = length items → encode_items true start items st = (Return (), st')).
Proof.
  induction items as [|item items IH]; intros start st st'.
  - intros [= <-]. exists 0%nat. repeat split; simpl; lia.
  - rewrite !encode_items_cons.
    destruct (item_step strict (start, item) st) as [[[]|x] st1] eqn:Hstep; [|discriminate].
    intros H. destruct (IH _ _ _ H) as (k & Hk & Hle & Hlen & Hall).
    apply item_step_count in Hstep.
    destruct Hstep as [[Hc Hs]|(Hc & Htrue & Hs)].
    + exists k. rewrite Hk, Hc, <- Hs. simpl. repeat split; try lia.
    + exists (S k). rewrite Hk, Hc. simpl. repeat split; try lia.
      intros Heq. rewrite Htrue. apply Hall. lia.
Qed.

(** X9. A record that the strict encoder encodes is encoded to the same
    result by the lenient one, with every item counted; and if the
    lenient encoder has counted every item, the strict one returns the
    same result. *)
Theorem strict_result_iff_nothing_skipped
    (w : World) (data : record) (items : list obj)
    (segs : list string) (total : Decimal) (count : nat) :
  getitem data "items" ≫= iter_dicts = Return items →
  generate_edi_segments data true w = Return (segs, total, count) ↔
  generate_edi_segments data false w = Return (segs, total, count) ∧ count = length items.
Proof.
  intros Hitems. rewrite !generate_edi_segments_eq, Hitems.
  destruct (before_items w data) as [st|e] eqn:Hbefore; simpl.
  2:{ split; [discriminate | intros [? _]; discriminate]. }
  assert (Hzero : item_count st = 0%nat).
  { unfold before_items in Hbefore.
    apply bind_Return in Hbefore as (h & _ & Hbefore).
    apply bind_Return in Hbefore as (ps & _ & Hbefore).
    destruct (enc_for party_step ps _) as [[[]|x] st1] eqn:Hp; [|discriminate].
    injection Hbefore as ->. apply enc_for_party_step in Hp. by rewrite Hp. }
  split.
  - destruct (encode_items true 1 items st) as [[[]|x] st'] eqn:Hrun; [|discriminate].
    apply encode_items_strict_Return in Hrun as [-> Hn]. simpl.
    intros [= <- <- <-]. split; [reflexivity | lia].
  - destruct (encode_items false 1 items st) as [[[]|x] st'] eqn:Hrun; simpl;
      [|intros [? _]; discriminate].
    intros [[= <- <- <-] Hcount].
    destruct (encode_items_counts _ _ _ _ _ Hrun) as (k & Hk & _ & _ & Hall).
    rewrite Hall by lia. reflexivity.
Qed.

Lemma strict_result_iff_nothing_skipped_witness :
  generate_edi_segments example_scenario false world0
  = Return ([ "UNA:+.? '"; "UNH+MSG1+PRICAT:D:96A:UN'"; "BGM+9+D1+9'";
              "DTM+137:20230515:102'"; "CUX+2:EUR:9'"; "RFF+ON:D1'"; "NAD+BY+B1::91'";
              "LIN+1++P1:EN'"; "IMD+F++:::Widget'"; "PRI+AAA:10.01:UP'";
              "PRI+AAB:10.01:UP'";
              "LIN+2++P2:EN'"; "IMD+F++:::Gadget'"; "PRI+AAA:5.00:UP'";
              "PRI+AAB:5.00:UP'" ],
            Finite false 1501 (-2), 2%nat) ∧
  2%nat = length [item_ok_1; item_ok_2].
Proof.
  apply (proj1 (strict_result_iff_nothing_skipped world0 example_scenario
                  [item_ok_1; item_ok_2] _ _ _ ltac:(vm_compute; reflexivity))).
  vm_compute. reflexivity.
Defined.

(** X10. Whenever the encoder returns, in either mode, its result starts
    with the six header segments, the first being the service string
    advice, followed by one segment per party; the count is at most the
    number of items, and the items account for between four and five
    segments per counted item. *)
Theorem segments_and_count_agree
    (w : World) (data : record) (strict : bool)
    (segs : list string) (total : Decimal) (count : nat) :
  generate_edi_segments data strict w = Return (segs, total, count) →
  ∃ parties items,
    getitem data "parties" ≫= iter_dicts = Return parties ∧
    getitem data "items" ≫= iter_dicts = Return items ∧
    head segs = Some UNA_SEGMENT ∧
    (count ≤ length items)%nat ∧
    (6 + length parties + 4 * count ≤ length segs
     ≤ 6 + length parties + 5 * count)%nat.
Proof.
  rewrite generate_edi_segments_eq. intros H.
  apply bind_Return in H as (st1 & Hbefore & H).
  apply bind_Return in H as (its & Hits & Hfin).
  unfold finish in Hfin.
  destruct (encode_items strict 1 its st1) as [[[]|x] st2] eqn:Hrun; [|discriminate].
  injection Hfin as <- <- <-.
  unfold before_items in Hbefore.
  apply bind_Return in Hbefore as (h & Hh & Hbefore).
  apply bind_Return in Hbefore as (ps & Hps & Hbefore).
  destruct (enc_for party_step ps _) as [[[]|x] st1'] eqn:Hparties; [|discriminate].
  injection Hbefore as ->.
  apply enc_for_party_step in Hparties. simpl in Hparties.
  destruct (header_segments_Return _ _ _ Hh) as (mr & ver & dc & dn & _ & _ & _ & _ & ->).
  destruct (encode_items_counts _ _ _ _ _ Hrun) as (k & Hk & Hle & Hlen & _).
  destruct (encode_items_Return_mem _ _ _ _ _ Hrun) as (extra & Hsegs & _).
  rewrite Hparties in Hk, Hlen, Hsegs. cbn [segments item_count] in Hk, Hlen, Hsegs.
  rewrite length_app, length_fmap in Hlen. simpl in Hk, Hlen.
  exists ps, its. repeat split; try done; try lia.
  by rewrite Hsegs.
Qed.

Lemma segments_and_count_agree_witness :
  let segs := [ "UNA:+.? '"; "UNH+MSG123+PRICAT:D:96A:UN'"; "BGM+9+PRICAT2023+9'";
                "DTM+137:20230515:102'"; "CUX+2:EUR:9'"; "RFF+ON:PRICAT2023'";
                "NAD+BY+BUYER001::91'"; "NAD+SU+SUPPLIER001::91'";
                "LIN+1++P1:EN'"; "IMD+F++:::Widget'"; "PRI+AAA:10.01:UP'";
                "PRI+AAB:10.01:UP'";
                "LIN+3++P2:EN'"; "IMD+F++:::Gadget'"; "PRI+AAA:5.00:UP'";
                "PRI+AAB:5.00:UP'" ] in
  ∃ parties items,
    getitem example_skip "parties" ≫= iter_dicts = Return parties ∧
    getitem example_skip "items" ≫= iter_dicts = Return items ∧
    head segs = Some UNA_SEGMENT ∧
    (2 ≤ length items)%nat ∧
    (6 + length parties + 4 * 2 ≤ length segs ≤ 6 + length parties + 5 * 2)%nat.
Proof.
  intros segs.
  apply (segments_and_count_agree world0 example_skip false segs
           (Finite false 1501 (-2)) 2%nat).
  vm_compute. reflexivity.
Defined.

(** ** Items and parties that the encoder cannot encode *)

(** The encoder at an item on which the [try] block fails with a failure
    that the [except] clause handles. *)
Lemma generate_edi_segments_at_handled_failure
    (w : World) (data : record) (pre post : list obj) (bad : obj) (msg : string) :
  data !! "items" = Some (List (pre ++ bad :: post)) →
  (∀ strict index st,
     item_step strict (index, bad) st =
     if strict then
       (Raise (PRICATValidationError
                 ("Invalid item " +:+ str_of_nat index +:+ ": " +:+ msg)), st)
     else (Return (), st)) →
  (∀ segs total count,
     generate_edi_segments (<["items" := List pre]> data) false w
     = Return (segs, total, count) →
     generate_edi_segments data false w
     = finish (encode_items false (length pre + 2) post
                 {| segments := segs; total_amount := total; item_count := count |})) ∧
  (∀ segs total count,
     generate_edi_segments (<["items" := List pre]> data) true w
     = Return (segs, total, count) →
     generate_edi_segments data true w
     = Raise (PRICATValidationError
                ("Invalid item " +:+ str_of_nat (length pre + 1) +:+ ": " +:+ msg))).
Proof.
  intros Hitems Hstep.
  assert (Hpre : ∀ strict segs total count,
    generate_edi_segments (<["items" := List pre]> data) strict w
    = Return (segs, total, count) →
    ∃ st, before_items w data = Return st ∧
          encode_items strict 1 pre st
          = (Return (), {| segments := segs; total_amount := total; item_count := count |})).
  { intros strict segs total count. rewrite generate_edi_segments_eq.
    rewrite before_items_insert_items. unfold getitem.
    rewrite lookup_insert_eq. simpl.
    destruct (before_items w data) as [st|]; simpl; [|discriminate].
    destruct (encode_items strict 1 pre st) as [[[]|x] [s t n]] eqn:Hrun; simpl;
      [|discriminate].
    intros [= -> -> ->]. exists st. split; [reflexivity | exact Hrun]. }
  split; intros segs total count H;
    destruct (Hpre _ _ _ _ H) as (st & Hst & Hrun);
    rewrite generate_edi_segments_eq, Hst; unfold getitem; rewrite Hitems; simpl;
    rewrite encode_items_app, Hrun, encode_items_cons, Hstep.
  - by replace (length pre + 2)%nat with (S (1 + length pre)) by lia.
  - simpl. by replace (length pre + 1)%nat with (S (length pre)) by lia.
Qed.

Lemma item_body_text_field_missing (index : nat) (item : obj) (key : string) (st : locals) :
  text_field_missing item key → item_body index item st = (Raise (KeyError key), st).
Proof.
  intros [(p & Hp & Hv) Hkey]. rewrite item_body_eq, Hp.
  destruct (validate_price p); [|discriminate].
  destruct Hkey as [[-> ->]|[(d & ->) [-> ->]]]; reflexivity.
Qed.

(** X11. An item whose price is acceptable but which has no description,
    or no product code, is treated like an item with a bad price: in
    lenient mode the encoder goes on after it from the segments, the
    total and the count reached before it, so that none of the segments
    of the item is emitted; in strict mode the failure names the position
    of the item and the missing key. *)
Theorem missing_text_field_skips_or_aborts
    (w : World) (data : record) (pre post : list obj) (bad : obj) (key : string) :
  data !! "items" = Some (List (pre ++ bad :: post)) →
  text_field_missing bad key →
  (∀ segs total count,
     generate_edi_segments (<["items" := List pre]> data) false w
     = Return (segs, total, count) →
     generate_edi_segments data false w
     = finish (encode_items false (length pre + 2) post
                 {| segments := segs; total_amount := total; item_count := count |})) ∧
  (∀ segs total count,
     generate_edi_segments (<["items" := List pre]> data) true w
     = Return (segs, total, count) →
     generate_edi_segments data true w
     = Raise (PRICATValidationError
                ("Invalid item " +:+ str_of_nat (length pre + 1) +:+ ": '"
                   +:+ key +:+ "'"))).
Proof.
  intros Hitems Hmiss.
  apply (generate_edi_segments_at_handled_failure w data pre post bad
           ("'" +:+ key +:+ "'") Hitems).
  intros strict index st.
  rewrite item_step_eq, (item_body_text_field_missing index bad key st Hmiss).
  reflexivity.
Qed.

Lemma missing_text_field_skips_or_aborts_witness :
  generate_edi_segments example_no_code false world0
  = finish (encode_items false 3 [item_ok_2]
              {| segments :=
                   [ "UNA:+.? '"; "UNH+MSG1+PRICAT:D:96A:UN'"; "BGM+9+D1+9'";
                     "DTM+137:20230515:102'"; "CUX+2:EUR:9'"; "RFF+ON:D1'";
                     "NAD+BY+B1::91'";
                     "LIN+1++P1:EN'"; "IMD+F++:::Widget'";
                     "PRI+AAA:10.01:UP'"; "PRI+AAB:10.01:UP'" ];
                 total_amount := Finite false 1001 (-2); item_count := 1 |}) ∧
  generate_edi_segments example_no_code true world0
  = Raise (PRICATValidationError "Invalid item 2: 'product_code'").
Proof.
  assert (Hitems : example_no_code !! "items"
                   = Some (List ([item_ok_1] ++ item_no_code :: [item_ok_2])))
    by (vm_compute; reflexivity).
  assert (Hmiss : text_field_missing item_no_code "product_code").
  { split.
    - exists (SStr "3.50"). split; vm_compute; reflexivity.
    - right. split; [exists "No code"; vm_compute; reflexivity|].
      split; [vm_compute|]; reflexivity. }
  destruct (missing_text_field_skips_or_aborts world0 example_no_code
              [item_ok_1] [item_ok_2] item_no_code "product_code" Hitems Hmiss)
    as [Hl Hs].
  split.
  - apply Hl. vm_compute. reflexivity.
  - eapply Hs. vm_compute. reflexivity.
Defined.

(** X12. The [except] clause of the loop over the items handles a
    missing key and a refused price only: an item with an acceptable
    price whose description is not a string makes the encoder raise
    [AttributeError] in lenient mode as well as in strict mode. *)
Theorem non_text_description_aborts
    (w : World) (data : record) (strict : bool) (pre post : list obj) (bad : obj)
    (p x : scalar) (segs : list string) (total : Decimal) (count : nat) :
  data !! "items" = Some (List (pre ++ bad :: post)) →
  bad !! "price" = Some p → is_Return (validate_price p) = true →
  bad !! "description" = Some x → is_str x = false →
  generate_edi_segments (<["items" := List pre]> data) strict w
  = Return (segs, total, count) →
  generate_edi_segments data strict w = Raise AttributeError.
Proof.
  intros Hitems Hp Hv Hd Hx.
  rewrite !generate_edi_segments_eq, before_items_insert_items.
  unfold getitem. rewrite lookup_insert_eq, Hitems. simpl.
  destruct (before_items w data) as [st|]; simpl; [|discriminate].
  rewrite encode_items_app.
  destruct (encode_items strict 1 pre st) as [[[]|e] st'] eqn:Hrun; simpl; [|discriminate].
  intros _. rewrite encode_items_cons, item_step_eq, item_body_eq, Hp.
  destruct (validate_price p); [|discriminate].
  rewrite Hd. destruct x; try discriminate; reflexivity.
Qed.

Lemma non_text_description_aborts_witness :
  generate_edi_segments example_number_description false world0 = Raise AttributeError.
Proof.
  assert (Hitems : example_number_description !! "items"
                   = Some (List ([item_ok_1] ++ item_number_description :: [item_ok_2])))
    by (vm_compute; reflexivity).
  eapply (non_text_description_aborts world0 example_number_description false
            [item_ok_1] [item_ok_2] item_number_description (SStr "1.00") (SInt 7)
            _ _ _ Hitems); vm_compute; reflexivity.
Defined.







(** ** The result of the encoder as a function of the record *)

Lemma item_step_encoding (strict : bool) (index : nat) (item : obj) (st st' : locals) :
  item_step strict (index, item) st = (Return (), st') →
  st' = match item_encoding index item with
        | Some (l, d) => with_item st l d
        | None => st
        end.
Proof.
  rewrite item_step_eq, item_body_eq. unfold item_encoding.
  destruct (item !! "price") as [p|]; [|destruct strict; by intros [= <-]].
  destruct (validate_price p) as [d|e] eqn:Hv.
  2:{ destruct (validate_price_Raise _ _ Hv) as [msg ->].
      destruct strict; by intros [= <-]. }
  destruct (item !! "description") as [[| | |desc|]|];
    try discriminate; [|destruct strict; by intros [= <-]].
  destruct (item !! "product_code") as [pc|]; [|destruct strict; by intros [= <-]].
  by intros [= <-].
Qed.

Lemma encodings_cons (start : nat) (item : obj) (items : list obj) :
  encodings start (item :: items) =
  match item_encoding start item with
  | Some x => x :: encodings (S start) items
  | None => encodings (S start) items
  end.
Proof. reflexivity. Qed.

Lemma encode_items_encodings (strict : bool) (items : list obj) :
  ∀ (start : nat) (st st' : locals),
  encode_items strict start items st = (Return (), st') →
  st' = {| segments := segments st ++ concat ((encodings start items).*1);
           total_amount := foldl Decimal_add (total_amount st) ((encodings start items).*2);
           item_count := item_count st + length (encodings start items) |}.
Proof.
  induction items as [|item items IH]; intros start st st'.
  - intros [= <-]. unfold encodings. simpl. rewrite app_nil_r, Nat.add_0_r. by destruct st.
  - rewrite encode_items_cons.
    destruct (item_step strict (start, item) st) as [[[]|x] st1] eqn:Hstep; [|discriminate].
    apply item_step_encoding in Hstep. intros H. apply IH in H. rewrite H, Hstep.
    rewrite encodings_cons.
    destruct (item_encoding start item) as [[l d]|]; [|reflexivity].
    rewrite !fmap_cons, concat_cons, length_cons. cbn [foldl fst snd with_item segments
      total_amount item_count].
    f_equal; [by rewrite <- app_assoc | lia].
Qed.

(** What the encoder returns, in terms of the items that get encoded. *)
Lemma generate_edi_segments_encodings
    (w : World) (data : record) (strict : bool)
    (segs : list string) (total : Decimal) (count : nat) :
  generate_edi_segments data strict w = Return (segs, total, count) →
  ∃ header parties items,
    header_segments w data = Return header ∧ length header = 6%nat ∧
    getitem data "parties" ≫= iter_dicts = Return parties ∧
    getitem data "items" ≫= iter_dicts = Return items ∧
    segs = header ++ (nad_segment <$> parties) ++ concat ((encodings 1 items).*1) ∧
    total = foldl Decimal_add (Finite false 0 (-2)) ((encodings 1 items).*2) ∧
    count = length (encodings 1 items).
Proof.
  rewrite generate_edi_segments_eq. intros H.
  apply bind_Return in H as (st1 & Hbefore & H).
  apply bind_Return in H as (its & Hits & Hfin).
  unfold finish in Hfin.
  destruct (encode_items strict 1 its st1) as [[[]|x] st2] eqn:Hrun; [|discriminate].
  injection Hfin as <- <- <-.
  unfold before_items in Hbefore.
  apply bind_Return in Hbefore as (h & Hh & Hbefore).
  apply bind_Return in Hbefore as (ps & Hps & Hbefore).
  destruct (enc_for party_step ps _) as [[[]|x] st1'] eqn:Hparties; [|discriminate].
  injection Hbefore as ->.
  apply enc_for_party_step in Hparties. cbn [segments total_amount item_count] in Hparties.
  apply encode_items_encodings in Hrun. rewrite Hparties in Hrun.
  cbn [segments total_amount item_count] in Hrun.
  exists h, ps, its. rewrite Hrun. cbn [segments total_amount item_count].
  repeat split; try done.
  - by destruct (header_segments_Return _ _ _ Hh) as (? & ? & ? & ? & _ & _ & _ & _ & ->).
  - by rewrite <- app_assoc.
Qed.

(** X15. Whenever the encoder returns, in either mode, its result is
    the six header segments, one segment per party, and the segments of
    the items whose [try] block runs to its end, in the order of the
    record and with the numbers of the record; the total is the sum,
    taken from the left, of the prices of those items, and the count is
    their number. *)
Theorem encoder_result_is_determined
    (w : World) (data : record) (strict : bool)
    (segs : list string) (total : Decimal) (count : nat) :
  generate_edi_segments data strict w = Return (segs, total, count) →
  ∃ header parties items,
    header_segments w data = Return header ∧ length header = 6%nat ∧
    getitem data "parties" ≫= iter_dicts = Return parties ∧
    getitem data "items" ≫= iter_dicts = Return items ∧
    segs = header ++ (nad_segment <$> parties) ++ concat ((encodings 1 items).*1) ∧
    total = foldl Decimal_add (Finite false 0 (-2)) ((encodings 1 items).*2) ∧
    count = length (encodings 1 items).
Proof. apply generate_edi_segments_encodings. Qed.

Lemma encoder_result_is_determined_witness :
  ∃ header parties items,
    header_segments world0 example_skip = Return header ∧ length header = 6%nat ∧
    getitem example_skip "parties" ≫= iter_dicts = Return parties ∧
    getitem example_skip "items" ≫= iter_dicts = Return items ∧
    [ "UNA:+.? '"; "UNH+MSG123+PRICAT:D:96A:UN'"; "BGM+9+PRICAT2023+9'";
      "DTM+137:20230515:102'"; "CUX+2:EUR:9'"; "RFF+ON:PRICAT2023'";
      "NAD+BY+BUYER001::91'"; "NAD+SU+SUPPLIER001::91'";
      "LIN+1++P1:EN'"; "IMD+F++:::Widget'"; "PRI+AAA:10.01:UP'"; "PRI+AAB:10.01:UP'";
      "LIN+3++P2:EN'"; "IMD+F++:::Gadget'"; "PRI+AAA:5.00:UP'"; "PRI+AAB:5.00:UP'" ]
    = header ++ (nad_segment <$> parties) ++ concat ((encodings 1 items).*1) ∧
    Finite false 1501 (-2)
    = foldl Decimal_add (Finite false 0 (-2)) ((encodings 1 items).*2) ∧
    2%nat = length (encodings 1 items).
Proof.
  apply (encoder_result_is_determined world0 example_skip false).
  vm_compute. reflexivity.
Defined.

(** ** The total *)

Lemma Decimal_add_cents (a b : N) (s : bool) :
  (s = true → b = 0%N) → Z.of_N (a + b) < 10 ^ 28 →
  Decimal_add (Finite false a (-2)) (Finite s b (-2)) = Finite false (a + b) (-2).
Proof.
  intros Hs Hlt. unfold Decimal_add.
  rewrite Z.min_id, Z.sub_diag. simpl Z.pow. rewrite !Z.mul_1_r.
  assert (Hv : Z.of_N a + (if s then - Z.of_N b else Z.of_N b) = Z.of_N (a + b)).
  { destruct s; [rewrite (Hs eq_refl)|]; lia. }
  rewrite Hv. destruct (Z.eqb_spec (Z.of_N (a + b)) 0) as [H0|Hne].
  - simpl. f_equal. lia.
  - unfold fix_prec. rewrite Zabs2N.id.
    replace (Z.of_N (a + b) <? 0) with false by (symmetry; apply Z.ltb_ge; lia).
    replace (ndigits (a + b) <=? prec) with true; [reflexivity|].
    symmetry. apply Z.leb_le. unfold prec. apply ndigits_le; [lia | exact Hlt].
Qed.

Lemma encodings_prices (start : nat) (items : list obj) :
  Forall (λ d, ∃ s c, d = Finite s c (-2) ∧ (s = true → c = 0%N))
         ((encodings start items).*2).
Proof.
  revert start. induction items as [|item items IH]; intros start; [constructor|].
  rewrite encodings_cons. unfold item_encoding.
  destruct (item !! "price") as [p|]; [|apply IH].
  destruct (validate_price p) as [d|] eqn:Hv; [|apply IH].
  destruct (item !! "description") as [[| | |desc|]|]; try apply IH.
  destruct (item !! "product_code") as [pc|]; [|apply IH].
  rewrite fmap_cons. constructor; [|apply IH]. cbn [snd].
  destruct (validate_price_Return _ _ Hv) as (s & c & e & c' & _ & -> & _ & Hs & _).
  eauto.
Qed.

Lemma foldl_add_cents (ds : list Decimal) :
  Forall (λ d, ∃ s c, d = Finite s c (-2) ∧ (s = true → c = 0%N)) ds →
  ∀ a, Z.of_N (a + sum_cents ds) < 10 ^ 28 →
       foldl Decimal_add (Finite false a (-2)) ds = Finite false (a + sum_cents ds) (-2).
Proof.
  induction 1 as [|d ds (s & c & -> & Hs) _ IH]; intros a Hlt.
  - unfold sum_cents. simpl. by rewrite N.add_0_r.
  - unfold sum_cents in *. rewrite fmap_cons in *. cbn [foldr foldl cents] in *.
    rewrite Decimal_add_cents; [|done|lia].
    rewrite IH by lia. f_equal. lia.
Qed.

(** X16. The total that the encoder returns is exact: as long as the
    prices of the encoded items add up to less than [10^28] hundredths,
    it is the decimal with two fraction digits whose coefficient is the
    sum of the coefficients of those prices. *)
Theorem total_is_exact_sum
    (w : World) (data : record) (strict : bool) (items : list obj)
    (segs : list string) (total : Decimal) (count : nat) :
  generate_edi_segments data strict w = Return (segs, total, count) →
  getitem data "items" ≫= iter_dicts = Return items →
  Z.of_N (sum_cents ((encodings 1 items).*2)) < 10 ^ 28 →
  total = Finite false (sum_cents ((encodings 1 items).*2)) (-2).
Proof.
  intros Hgen Hitems Hlt.
  destruct (generate_edi_segments_encodings _ _ _ _ _ _ Hgen)
    as (h & ps & its & _ & _ & _ & Hits & _ & -> & _).
  rewrite Hitems in Hits. injection Hits as <-.
  by rewrite (foldl_add_cents _ (encodings_prices 1 items) 0%N).
Qed.

Lemma total_is_exact_sum_witness :
  Finite false 1501 (-2)
  = Finite false (sum_cents ((encodings 1 [item_ok_1; item_ok_2]).*2)) (-2).
Proof.
  apply (total_is_exact_sum world0 example_scenario false [item_ok_1; item_ok_2]
           [ "UNA:+.? '"; "UNH+MSG1+PRICAT:D:96A:UN'"; "BGM+9+D1+9'";
             "DTM+137:20230515:102'"; "CUX+2:EUR:9'"; "RFF+ON:D1'"; "NAD+BY+B1::91'";
             "LIN+1++P1:EN'"; "IMD+F++:::Widget'"; "PRI+AAA:10.01:UP'";
             "PRI+AAB:10.01:UP'";
             "LIN+2++P2:EN'"; "IMD+F++:::Gadget'"; "PRI+AAA:5.00:UP'";
             "PRI+AAB:5.00:UP'" ] _ 2%nat);
    vm_compute; reflexivity.
Defined.

(** ** The currency in the output *)




(** ** The output file *)

Lemma generate_pricat_eq (data : record) (filename : option string)
    (overwrite : bool) (w : World) :
  generate_pricat data filename overwrite w =
  match message_segments generate_edi_segments data w with
  | Return all =>
      if is_set filename then
        match save_message (default "" filename) overwrite (join (String "010" "") all) w with
        | Return w' => (join (String "010" "") all, w')
        | Raise _ => ("", w)
        end
      else (join (String "010" "") all, w)
  | Raise _ => ("", w)
  end.
Proof.
  unfold generate_pricat, generate_pricat_with.
  destruct (message_segments generate_edi_segments data w) as [all|e]; simpl.
  - destruct (is_set filename); [|reflexivity].
    destruct (save_message _ _ _ _) as [w'|e]; simpl; [reflexivity|]. by destruct e.
  - by destruct e.
Qed.





(** ** Existing files *)








(** ** Failures while saving *)



(** ** The returned text *)

(** X21. The file name and the [overwrite] flag have no influence on
    the text: what [generate_pricat] returns is the empty string or the
    text it returns when called without a file name. *)
Theorem text_is_independent_of_file_options
    (data : record) (filename : option string) (overwrite : bool) (w : World) :
  (generate_pricat data filename overwrite w).1 = "" ∨
  (generate_pricat data filename overwrite w).1 = (generate_pricat data None false w).1.
Proof.
  rewrite !generate_pricat_eq.
  destruct (message_segments generate_edi_segments data w) as [all|e]; [|by left].
  cbn [is_set]. destruct (is_set filename); [|by right].
  destruct (save_message _ _ _ _); [by right | by left].
Qed.



(** ** The number of segments *)






(** ** Segment terminators *)

Lemma endswith_char_app (c : ascii) (s t : string) :
  endswith_char c t = true → endswith_char c (s +:+ t) = true.
Proof.
  intros Ht. induction s as [|a s IH]; [by rewrite app_nil_l|].
  rewrite app_cons. simpl. destruct (s +:+ t) eqn:Hst; [|exact IH].
  simpl in IH. discriminate.
Qed.

Ltac solve_terminated :=
  unfold terminated;
  repeat lazymatch goal with
         | |- endswith_char _ (_ +:+ _) = true => apply endswith_char_app
         end;
  reflexivity.

Lemma encodings_terminated (items : list obj) :
  ∀ start, Forall (λ s, terminated s = true) (concat ((encodings start items).*1)).
Proof.
  induction items as [|item items IH]; intros start; [constructor|].
  rewrite encodings_cons. unfold item_encoding.
  destruct (item !! "price") as [p|]; [|apply IH].
  destruct (validate_price p) as [d|]; [|apply IH].
  destruct (item !! "description") as [[| | |desc|]|]; try apply IH.
  destruct (item !! "product_code") as [pc|]; [|apply IH].
  rewrite fmap_cons, concat_cons. cbn [fst]. apply Forall_app. split; [|apply IH].
  unfold line_segments. apply Forall_app. split.
  - repeat (constructor; [solve_terminated|]). constructor.
  - destruct (item !! "quantity"); [|constructor].
    constructor; [solve_terminated | constructor].
Qed.

(** X24. Every segment that the encoder returns, in either mode, ends
    with the segment terminator, and so does every segment of the
    message. *)
Theorem every_segment_is_terminated (w : World) (data : record) :
  (∀ strict segs total count,
     generate_edi_segments data strict w = Return (segs, total, count) →
     Forall (λ s, terminated s = true) segs) ∧
  (∀ all,
     message_segments generate_edi_segments data w = Return all →
     Forall (λ s, terminated s = true) all).
Proof.
  assert (Henc : ∀ strict segs total count,
             generate_edi_segments data strict w = Return (segs, total, count) →
             Forall (λ s, terminated s = true) segs).
  { intros strict segs total count Hgen.
    destruct (generate_edi_segments_encodings _ _ _ _ _ _ Hgen)
      as (h & ps & its & Hh & _ & _ & _ & -> & _).
    destruct (header_segments_Return _ _ _ Hh) as (mr & ver & dc & dn & _ & _ & _ & _ & ->).
    repeat apply Forall_app_2.
    - repeat (constructor; [solve_terminated|]). constructor.
    - apply Forall_fmap, Forall_true. intros p. unfold nad_segment. simpl. solve_terminated.
    - apply encodings_terminated. }
  split; [exact Henc|].
  intros all Hmsg. unfold message_segments in Hmsg.
  apply bind_Return in Hmsg as ([] & _ & Hmsg).
  apply bind_Return in Hmsg as ([[segs total] count] & Hgen & Hmsg).
  apply bind_Return in Hmsg as (footer & Hfooter & [= <-]).
  apply Forall_app_2; [by eapply Henc|].
  unfold footer_segments in Hfooter.
  apply bind_Return in Hfooter as (mr & _ & [= <-]).
  repeat (constructor; [solve_terminated|]). constructor.
Qed.

Lemma every_segment_is_terminated_witness :
  Forall (λ s, terminated s = true)
    [ "UNA:+.? '"; "UNH+MSG123+PRICAT:D:96A:UN'"; "BGM+9+PRICAT2023+9'";
      "DTM+137:20230515:102'"; "CUX+2:EUR:9'"; "RFF+ON:PRICAT2023'";
      "NAD+BY+BUYER001::91'"; "NAD+SU+SUPPLIER001::91'";
      "LIN+1++P1:EN'"; "IMD+F++:::Widget'"; "PRI+AAA:10.01:UP'"; "PRI+AAB:10.01:UP'";
      "LIN+3++P2:EN'"; "IMD+F++:::Gadget'"; "PRI+AAA:5.00:UP'"; "PRI+AAB:5.00:UP'" ].
Proof.
  apply (proj1 (every_segment_is_terminated world0 example_skip) false _
           (Finite false 1501 (-2)) 2%nat).
  vm_compute. reflexivity.
Defined.

(** ** White space around a price *)

Lemma lstrip_spaces_app (a s : string) :
  str_forallb is_space a = true → lstrip (a +:+ s) = lstrip s.
Proof.
  induction a as [|c a IH]; [by rewrite app_nil_l|].
  cbn [str_forallb]. intros [Hc Ha]%andb_prop. rewrite app_cons. cbn [lstrip].
  rewrite Hc. by apply IH.
Qed.

Lemma lstrip_spaces (b : string) : str_forallb is_space b = true → lstrip b = "".
Proof.
  intros Hb. rewrite <- (app_empty_r b). by rewrite (lstrip_spaces_app b "" Hb).
Qed.

Lemma rstrip_spaces (b : string) : str_forallb is_space b = true → rstrip b = "".
Proof.
  induction b as [|c b IH]; [done|].
  cbn [str_forallb rstrip]. intros [Hc Hb]%andb_prop. by rewrite (IH Hb), Hc.
Qed.

Lemma rstrip_app_spaces (s b : string) :
  str_forallb is_space b = true → rstrip (s +:+ b) = rstrip s.
Proof.
  intros Hb. induction s as [|c s IH]; [rewrite app_nil_l; by apply rstrip_spaces|].
  rewrite app_cons. cbn [rstrip]. by rewrite IH.
Qed.

Lemma lstrip_app (s b : string) :
  lstrip (s +:+ b) = lstrip s +:+ b ∨ str_forallb is_space s = true.
Proof.
  induction s as [|c s IH]; [by right|].
  rewrite app_cons. cbn [lstrip str_forallb]. destruct (is_space c); [|left; by rewrite app_cons].
  destruct IH as [IH|IH]; [by left | by right].
Qed.

Lemma strip_spaces (a s b : string) :
  str_forallb is_space a = true → str_forallb is_space b = true →
  strip (a +:+ s +:+ b) = strip s.
Proof.
  intros Ha Hb. unfold strip. rewrite (lstrip_spaces_app _ _ Ha).
  destruct (lstrip_app s b) as [->|Hs]; [by apply rstrip_app_spaces|].
  by rewrite (lstrip_spaces_app s b Hs), (lstrip_spaces b Hb), (lstrip_spaces s Hs).
Qed.

(** X25. White space before and after the text of a price is ignored:
    the text is accepted with the spaces exactly when it is accepted
    without them, with the same value, and it is rejected as negative
    exactly when it is rejected as negative without them. *)
Theorem price_text_may_be_padded (a s b : string) :
  str_forallb is_space a = true → str_forallb is_space b = true →
  (∀ d, validate_price (SStr (a +:+ s +:+ b)) = Return d ↔
        validate_price (SStr s) = Return d) ∧
  (validate_price (SStr (a +:+ s +:+ b))
     = Raise (PRICATValidationError "Price cannot be negative") ↔
   validate_price (SStr s) = Raise (PRICATValidationError "Price cannot be negative")).
Proof.
  intros Ha Hb. rewrite !validate_price_outcome. unfold price_outcome. cbn [py_str].
  assert (Hnew : Decimal_new (a +:+ s +:+ b) = Decimal_new s).
  { unfold Decimal_new. by rewrite strip_spaces. }
  rewrite Hnew.
  destruct (Decimal_new s) as [[sg c e|sg|sg sn p]|x].
  - destruct (10 ^ 28 <=? _).
    + split; [done|]. split; intros [= H]; discriminate H.
    + destruct (sg && _); done.
  - split; [done|]. split; intros [= H]; discriminate H.
  - split; [done|]. split; intros [= H]; discriminate H.
  - split; [done|]. split; intros [= H]; discriminate H.
Qed.

Lemma price_text_may_be_padded_witness :
  (∀ d, validate_price (SStr (" " +:+ "12.5" +:+ " ")) = Return d ↔
        validate_price (SStr "12.5") = Return d) ∧
  (validate_price (SStr (" " +:+ "12.5" +:+ " "))
     = Raise (PRICATValidationError "Price cannot be negative") ↔
   validate_price (SStr "12.5") = Raise (PRICATValidationError "Price cannot be negative")).
Proof. apply price_text_may_be_padded; reflexivity. Defined.

(** ** The derived file name *)



(** ** The text of a price *)

(** With two fraction digits [format(d, ".2f")] and [str(d)] agree. *)
Lemma Decimal_format_2f_cents (s : bool) (c : N) :
  Decimal_format_2f (Finite s c (-2)) = Decimal_str (Finite s c (-2)).
Proof.
  pose proof (digits_nonempty c) as Hne.
  unfold Decimal_format_2f, Decimal_str. rewrite rescale_same.
  set (ds := digits c) in *.
  assert (Hlen : (1 ≤ String.length ds)%nat) by (destruct ds; [done | simpl; lia]).
  replace ((-2 <=? 0) && (-6 <? -2 + Z.of_nat (String.length ds))) with true
    by (symmetry; apply andb_true_intro; split; [reflexivity | apply Z.ltb_lt; lia]).
  rewrite Z.eqb_refl, app_empty_r. f_equal.
  destruct (Nat.leb_spec (String.length ds) 2) as [Hle|Hgt].
  - replace (-2 + Z.of_nat (String.length ds) <=? 0) with true
      by (symmetry; apply Z.leb_le; lia).
    replace (Z.to_nat (- (-2 + Z.of_nat (String.length ds))))
      with (2 - String.length ds)%nat by lia.
    by rewrite !app_cons, !app_nil_l.
  - replace (-2 + Z.of_nat (String.length ds) <=? 0) with false
      by (symmetry; apply Z.leb_gt; lia).
    replace (Z.of_nat (String.length ds) <=? -2 + Z.of_nat (String.length ds)) with false
      by (symmetry; apply Z.leb_gt; lia).
    replace (Z.to_nat (-2 + Z.of_nat (String.length ds)))
      with (String.length ds - 2)%nat by lia.
    reflexivity.
Qed.

(** X27. The text of a price in the [PRI] segments reads back as the
    same price: for a price [d] that [validate_price] returns,
    [format(d, ".2f")] is the text [str(d)], and [validate_price] applied
    to that text returns [d]. *)
Theorem formatted_price_reads_back (price : scalar) (d : Decimal) :
  validate_price price = Return d →
  Decimal_format_2f d = Decimal_str d ∧
  validate_price (SStr (Decimal_format_2f d)) = Return d.
Proof.
  intros H.
  destruct (validate_price_Return _ _ H) as (s & c & e & c' & _ & -> & Hdig & Hsign & _).
  rewrite Decimal_format_2f_cents. split; [reflexivity|].
  change (validate_price (SStr (Decimal_str (Finite s c' (-2)))))
    with (validate_price (SDec (Finite s c' (-2)))).
  by apply validate_price_cents.
Qed.

Lemma formatted_price_reads_back_witness :
  Decimal_format_2f (Finite false 101 (-2)) = Decimal_str (Finite false 101 (-2)) ∧
  validate_price (SStr (Decimal_format_2f (Finite false 101 (-2))))
  = Return (Finite false 101 (-2)).
Proof.
  apply (formatted_price_reads_back (SStr "1.005")). vm_compute. reflexivity.
Defined.
